(** * postgres-chatroom: the PostgreSQL change listener

    A shallow embedding of [backend/services/postgresListener.js]: the
    in-process event bus ([on], [emit], [off], [removeAllListeners]), the
    notification decoder ([handleNotification]), the connection life cycle
    ([connect], [setupTriggers], [startListening], [reconnect],
    [disconnect], [testNotification]) and the database side installed by
    [setupTriggers] (the [notify_message_change] trigger function and the
    [messages_notify_trigger] trigger). *)

From Stdlib Require Import Ascii String ZArith Lia.
From stdpp Require Import base option strings list gmap.

Open Scope string_scope.
Open Scope list_scope.

(** ** JavaScript and PostgreSQL values *)

(** A JSON value, as built by [json_build_object] on the server and as
    returned by [JSON.parse] in the listener.  An object keeps its members
    in the order they were written. *)
#[local] Set Warnings "-register-all".
Inductive json : Type :=
| JNull
| JBool (b : bool)
| JNum (n : Z)
| JStr (s : string)
| JArr (items : list json)
| JObj (members : list (string * json)).

(** Member lookup in an object: the first binding of the key. *)
Fixpoint assoc (k : string) (ms : list (string * json)) : option json :=
  match ms with
  | [] => None
  | (k', v) :: rest => if decide (k = k') then Some v else assoc k rest
  end.

Definition member (k : string) (j : json) : option json :=
  match j with
  | JObj ms => assoc k ms
  | _ => None
  end.

Definition keys (j : json) : list string :=
  match j with
  | JObj ms => ms.*1
  | _ => []
  end.

(** A thrown JavaScript value or a rejected promise's reason. *)
Definition Err := string.

(** A function object is known by its identity: [indexOf] compares
    callbacks with [===]. *)
Definition Callback := nat.

(** An array object is known by its identity as well: the [Map] holds
    references to arrays, and [push] and [splice] update them in place. *)
Definition loc := nat.

(** A [pg.Client] object. *)
Definition ClientId := nat.

(** ** The listener object and the store *)

(** The fields set by the constructor, without [prisma], which no method
    reads. *)
Record PostgresListener : Type := mkListener {
  client : option ClientId;
  isListening : bool;
  listeners : gmap string loc
}.

(** What a callback ends with. *)
Inductive completion : Type :=
| Returned
| Threw (e : Err).

(** What the program does that can be seen from outside, in order. *)
Inductive Sql : Type :=
| createFunctionQuery
| createTriggerQuery
| ListenQuery       (* LISTEN message_changes *)
| UnlistenQuery     (* UNLISTEN message_changes *)
| TestNotifyQuery.  (* SELECT pg_notify('message_changes', '{"operation": "TEST", ...}') *)

Inductive Api : Type := ApiConnect | ApiDisconnect | ApiTestNotification.

Inductive Output : Type :=
| Log (msg : string)                    (* console.log(msg) *)
| LogError (msg : string) (e : Err)     (* console.error(msg, e) *)
| LogPayload (msg : string) (d : json)  (* console.log(msg, payload) *)
| Called (cb : Callback) (d : json)     (* callback(data) *)
| NewClient (c : ClientId)              (* new Client({...}) *)
| ClientConnect (c : ClientId)          (* client.connect() *)
| ClientQuery (c : ClientId) (q : Sql)  (* client.query(q) *)
| ClientEnd (c : ClientId)              (* client.end() *)
| SetTimeout (ms : Z)                   (* setTimeout(..., ms) *)
| Settled (f : Api) (r : completion).   (* the promise handed to the caller settles *)

(** The part of the JavaScript heap a callback can reach and change while
    it runs: the listener object, the arrays its [Map] refers to, and the
    state [U] private to the subscribers' closures. *)
Record Store (U : Type) : Type := mkStore {
  this : PostgresListener;
  arrays : gmap loc (list Callback);
  user : U
}.
Arguments mkStore {U} _ _ _.
Arguments this {U} _.
Arguments arrays {U} _.
Arguments user {U} _.

Section Program.

Context {U : Type}.

(** What calling a function object does: it may change the store, and
    it returns or throws. *)
Variable call : Callback -> json -> Store U -> Store U * completion.

Definition set_arrays (f : gmap loc (list Callback) -> gmap loc (list Callback))
    (s : Store U) : Store U :=
  mkStore (this s) (f (arrays s)) (user s).

Definition set_listeners (f : gmap string loc -> gmap string loc)
    (s : Store U) : Store U :=
  mkStore (mkListener (client (this s)) (isListening (this s)) (f (listeners (this s))))
          (arrays s) (user s).

Definition set_isListening (b : bool) (s : Store U) : Store U :=
  mkStore (mkListener (client (this s)) b (listeners (this s))) (arrays s) (user s).

Definition set_client (c : option ClientId) (s : Store U) : Store U :=
  mkStore (mkListener c (isListening (this s)) (listeners (this s))) (arrays s) (user s).

(** [this.listeners.get(event)], followed through the reference. *)
Definition registered (s : Store U) (event : string) : option (list Callback) :=
  listeners (this s) !! event ≫= λ l, arrays s !! l.

(** [on(event, callback)]: a topic seen for the first time gets a new empty
    array; the callback is pushed at the end of the topic's array. *)
Definition on (event : string) (callback : Callback) (s : Store U) : Store U :=
  let s1 :=
    match listeners (this s) !! event with
    | Some _ => s
    | None =>
        let l := fresh (dom (arrays s)) in
        set_listeners <[event := l]> (set_arrays <[l := []]> s)
    end in
  match listeners (this s1) !! event with
  | Some l => set_arrays (alter (λ cbs, cbs ++ [callback]) l) s1
  | None => s1
  end.

(** [callbacks.indexOf(callback)]: the first position holding the callback. *)
Fixpoint indexOf (callback : Callback) (cbs : list Callback) : option nat :=
  match cbs with
  | [] => None
  | cb :: rest =>
      if decide (cb = callback) then Some 0 else S <$> indexOf callback rest
  end.

(** [callbacks.splice(index, 1)]. *)
Definition splice1 (index : nat) (cbs : list Callback) : list Callback :=
  delete index cbs.

(** [off(event, callback)]. *)
Definition off (event : string) (callback : Callback) (s : Store U) : Store U :=
  match listeners (this s) !! event with
  | Some l =>
      match arrays s !! l with
      | Some callbacks =>
          match indexOf callback callbacks with
          | Some index => set_arrays <[l := splice1 index callbacks]> s
          | None => s
          end
      | None => s
      end
  | None => s
  end.

(** [removeAllListeners(event)]: with a truthy argument the topic's entry is
    deleted from the [Map], otherwise the [Map] is cleared.  The empty
    string is falsy. *)
Definition removeAllListeners (event : option string) (s : Store U) : Store U :=
  match event with
  | Some e =>
      if decide (e = "") then set_listeners (λ _, ∅) s
      else set_listeners (delete e) s
  | None => set_listeners (λ _, ∅) s
  end.

(** [Array.prototype.forEach] on the array object at [l]: the length is
    read once, before the loop; at each index below it the element is read
    from the array as it is then, and an index that is no longer there is
    skipped.  The body is the arrow function of [emit]: the callback is
    called inside [try], and what it throws is logged. *)
Fixpoint forEach (len k : nat) (l : loc) (data : json) (s : Store U)
    : Store U * list Output :=
  match len with
  | O => (s, [])
  | S len' =>
      match arrays s !! l ≫= λ cbs, cbs !! k with
      | Some callback =>
          let '(s1, r) := call callback data s in
          let logged :=
            match r with
            | Returned => []
            | Threw e => [LogError "Error in event callback:" e]
            end in
          let '(s2, out) := forEach len' (S k) l data s1 in
          (s2, Called callback data :: logged ++ out)
      | None => forEach len' (S k) l data s
      end
  end.

(** [emit(event, data)]. *)
Definition emit (event : string) (data : json) (s : Store U) : Store U * list Output :=
  match listeners (this s) !! event with
  | Some l =>
      match arrays s !! l with
      | Some callbacks => forEach (length callbacks) 0 l data s
      | None => (s, [])
      end
  | None => (s, [])
  end.


(** ** The connection life cycle *)

(** [JSON.parse], a built-in of the language: [None] when it throws. *)
Variable JSON_parse : string -> option json.

Definition SyntaxError : Err := "SyntaxError: the payload is not valid JSON".
Definition TypeError_null : Err := "TypeError: Cannot read properties of null".

(** Who awaits a [connect()] call: the application, or [reconnect]. *)
Inductive Caller : Type := FromApp | FromReconnect.

(** An [async] method suspended at an [await], or a timer waiting to fire;
    the constructor says where the code resumes. *)
Inductive Pending : Type :=
| AwaitClientConnect (k : Caller)   (* connect: await this.client.connect() *)
| AwaitCreateFunction (k : Caller)  (* setupTriggers: await this.client.query(createFunctionQuery) *)
| AwaitCreateTrigger (k : Caller)   (* setupTriggers: await this.client.query(createTriggerQuery) *)
| AwaitListen (k : Caller)          (* startListening: await this.client.query('LISTEN ...') *)
| AwaitReconnectEnd                 (* reconnect: await this.client.end() *)
| AwaitReconnectDelay               (* reconnect: await new Promise(... setTimeout(resolve, 5000)) *)
| RetryTimer                        (* reconnect: setTimeout(() => this.reconnect(), 10000) *)
| AwaitUnlisten                     (* disconnect: await this.client.query('UNLISTEN ...') *)
| AwaitDisconnectEnd                (* disconnect: await this.client.end() *)
| AwaitTestNotify.                  (* testNotification: await this.client.query(...) *)

(** The events a [pg.Client] emits that [startListening] subscribes to. *)
Inductive ClientEvent : Type :=
| notification (payload : string)
| error (err : Err)
| end_.

(** The whole process: the store, the clients on which [startListening]
    has registered its three handlers (one entry per registration), what is
    pending, and what has been done so far. *)
Record World : Type := mkWorld {
  store : Store U;
  wired : list ClientId;
  tasks : gmap nat Pending;
  next_client : ClientId;
  trace : list Output
}.

Definition say (out : list Output) (w : World) : World :=
  mkWorld (store w) (wired w) (tasks w) (next_client w) (trace w ++ out).

Definition update (f : Store U -> Store U) (w : World) : World :=
  mkWorld (f (store w)) (wired w) (tasks w) (next_client w) (trace w).

(** Suspend at an [await] (or arm a timer): the environment settles it
    later under a name not in use. *)
Definition suspend (p : Pending) (w : World) : World :=
  mkWorld (store w) (wired w) (<[fresh (dom (tasks w)) := p]> (tasks w))
          (next_client w) (trace w).

(** [connect()] settles for its caller.  The application sees the promise
    settle; [reconnect] is done when it resolves, and on a rejection logs
    and arms the 10 s retry. *)
Definition reconnect_catch (e : Err) (w : World) : World :=
  suspend RetryTimer (say [LogError "Reconnection failed:" e; SetTimeout 10000%Z] w).

Definition connect_resolve (k : Caller) (w : World) : World :=
  match k with
  | FromApp => say [Settled ApiConnect Returned] w
  | FromReconnect => w
  end.

Definition connect_catch (k : Caller) (e : Err) (w : World) : World :=
  let w1 := say [LogError "Failed to connect PostgreSQL listener:" e] w in
  match k with
  | FromApp => say [Settled ApiConnect (Threw e)] w1
  | FromReconnect => reconnect_catch e w1
  end.

Definition setupTriggers_catch (k : Caller) (e : Err) (w : World) : World :=
  connect_catch k e (say [LogError "Failed to set up triggers:" e] w).

Definition startListening_catch (k : Caller) (e : Err) (w : World) : World :=
  connect_catch k e (say [LogError "Failed to start listening:" e] w).

(** [await this.client.query(q)]: the field is read when the call is made;
    on [null] the call throws into the enclosing [try]. *)
Definition client_query (q : Sql) (p : Pending) (catch : Err -> World -> World)
    (w : World) : World :=
  match client (this (store w)) with
  | Some c => suspend p (say [ClientQuery c q] w)
  | None => catch TypeError_null w
  end.

(** [connect()], up to [await this.client.connect()]. *)
Definition connect (k : Caller) (w : World) : World :=
  let c := next_client w in
  suspend (AwaitClientConnect k)
    (mkWorld (set_client (Some c) (store w)) (wired w) (tasks w) (S c)
             (trace w ++ [NewClient c; ClientConnect c])).

(** [setupTriggers()], up to its first [await]. *)
Definition setupTriggers (k : Caller) (w : World) : World :=
  client_query createFunctionQuery (AwaitCreateFunction k) (setupTriggers_catch k) w.

(** [startListening()], up to its [await]. *)
Definition startListening (k : Caller) (w : World) : World :=
  client_query ListenQuery (AwaitListen k) (startListening_catch k) w.

(** [startListening()] after [LISTEN] went through. *)
Definition startListening_resume (k : Caller) (w : World) : World :=
  let w1 := say [Log "Started listening to message_changes channel"]
                (update (set_isListening true) w) in
  match client (this (store w1)) with
  | Some c =>
      connect_resolve k
        (mkWorld (store w1) (wired w1 ++ [c]) (tasks w1) (next_client w1) (trace w1))
  | None => startListening_catch k TypeError_null w1
  end.

(** [reconnect()], up to its first [await]. *)
Definition reconnect (w : World) : World :=
  if isListening (this (store w)) then w
  else
    let w1 := say [Log "Attempting to reconnect PostgreSQL listener..."] w in
    match client (this (store w1)) with
    | Some c => suspend AwaitReconnectEnd (say [ClientEnd c] w1)
    | None => suspend AwaitReconnectDelay (say [SetTimeout 5000%Z] w1)
    end.

(** [disconnect()], up to its first [await]. *)
Definition disconnect_catch (e : Err) (w : World) : World :=
  say [LogError "Error disconnecting PostgreSQL listener:" e;
       Settled ApiDisconnect Returned] w.

Definition disconnect (w : World) : World :=
  match client (this (store w)) with
  | Some c => suspend AwaitUnlisten (say [ClientQuery c UnlistenQuery] w)
  | None => say [Settled ApiDisconnect Returned] w
  end.

(** [testNotification()], up to its [await]. *)
Definition testNotification_catch (e : Err) (w : World) : World :=
  say [LogError "Failed to send test notification:" e;
       Settled ApiTestNotification Returned] w.

Definition testNotification (w : World) : World :=
  client_query TestNotifyQuery AwaitTestNotify testNotification_catch w.

(** The code after an [await], once the awaited promise has settled with
    [r] (a timer only ever resolves). *)
Definition resume (p : Pending) (r : completion) (w : World) : World :=
  match p, r with
  | AwaitClientConnect k, Returned =>
      setupTriggers k (say [Log "PostgreSQL listener connected successfully"] w)
  | AwaitClientConnect k, Threw e => connect_catch k e w
  | AwaitCreateFunction k, Returned =>
      client_query createTriggerQuery (AwaitCreateTrigger k) (setupTriggers_catch k) w
  | AwaitCreateFunction k, Threw e => setupTriggers_catch k e w
  | AwaitCreateTrigger k, Returned =>
      startListening k (say [Log "PostgreSQL triggers set up successfully"] w)
  | AwaitCreateTrigger k, Threw e => setupTriggers_catch k e w
  | AwaitListen k, Returned => startListening_resume k w
  | AwaitListen k, Threw e => startListening_catch k e w
  | AwaitReconnectEnd, Returned =>
      suspend AwaitReconnectDelay (say [SetTimeout 5000%Z] w)
  | AwaitReconnectEnd, Threw e => reconnect_catch e w
  | AwaitReconnectDelay, _ => connect FromReconnect w
  | RetryTimer, _ => reconnect w
  | AwaitUnlisten, Returned =>
      match client (this (store w)) with
      | Some c => suspend AwaitDisconnectEnd (say [ClientEnd c] w)
      | None => disconnect_catch TypeError_null w
      end
  | AwaitUnlisten, Threw e => disconnect_catch e w
  | AwaitDisconnectEnd, Returned =>
      say [Log "PostgreSQL listener disconnected"; Settled ApiDisconnect Returned]
          (update (set_isListening false) w)
  | AwaitDisconnectEnd, Threw e => disconnect_catch e w
  | AwaitTestNotify, Returned =>
      say [Log "Test notification sent"; Settled ApiTestNotification Returned] w
  | AwaitTestNotify, Threw e => testNotification_catch e w
  end.

(** [handleNotification(msg)], on the payload of the message. *)
Definition handleNotification (payload : string) (w : World) : World :=
  match JSON_parse payload with
  | Some p =>
      let w1 := say [LogPayload "Received notification:" p] w in
      let '(s, out) := emit "message_change" p (store w1) in
      say out (update (λ _, s) w1)
  | None => say [LogError "Failed to parse notification payload:" SyntaxError] w
  end.

(** One of the three handlers registered by [startListening]. *)
Definition client_handler (ev : ClientEvent) (w : World) : World :=
  match ev with
  | notification payload => handleNotification payload w
  | error err => reconnect (say [LogError "PostgreSQL listener error:" err] w)
  | end_ =>
      reconnect (update (set_isListening false)
                   (say [Log "PostgreSQL listener connection ended"] w))
  end.

(** What happens to the process. *)
Inductive Input : Type :=
| Invoke (f : Api)                              (* the application calls the method *)
| Subscribe (event : string) (cb : Callback)    (* listener.on(event, cb) *)
| Unsubscribe (event : string) (cb : Callback)  (* listener.off(event, cb) *)
| UnsubscribeAll (event : option string)        (* listener.removeAllListeners(event) *)
| Settle (t : nat) (r : completion)             (* a pending promise settles, a timer fires *)
| Emits (c : ClientId) (ev : ClientEvent).      (* the client object emits an event *)

(** One turn of the event loop.  An event of a client is handed to every
    handler registered on it for that event, in registration order; on a
    client on which [startListening] registered nothing it is lost.
    Settling a name that is not pending does nothing. *)
Definition step (w : World) (i : Input) : World :=
  match i with
  | Invoke ApiConnect => connect FromApp w
  | Invoke ApiDisconnect => disconnect w
  | Invoke ApiTestNotification => testNotification w
  | Subscribe event cb => update (on event cb) w
  | Unsubscribe event cb => update (off event cb) w
  | UnsubscribeAll event => update (removeAllListeners event) w
  | Settle t r =>
      match tasks w !! t with
      | Some p =>
          resume p r (mkWorld (store w) (wired w) (delete t (tasks w))
                              (next_client w) (trace w))
      | None => w
      end
  | Emits c ev =>
      foldl (λ w' _, client_handler ev w') w (filter (λ c', c' = c) (wired w))
  end.

Definition run (w : World) (inputs : list Input) : World := foldl step w inputs.

(** [new PostgresListener()], in a process that has done nothing yet. *)
Definition constructor (u : U) : World :=
  mkWorld (mkStore (mkListener None false ∅) ∅ u) [] ∅ 0 [].

End Program.

Arguments World : clear implicits.

(** ** The database side *)

(** A row of the [messages] table, with the columns the trigger function
    reads. *)
Module Row.
Record t : Type := mk {
  id : Z;
  group_uuid : string;
  sender_uuid : string;
  content : string;
  file : option string;
  created_date : string;
  is_deleted : bool
}.
End Row.

(** What a row-level trigger is fired for, with the row images PostgreSQL
    hands to the function: [NEW] for an insert, [OLD] and [NEW] for an
    update, [OLD] for a delete. *)
Inductive TriggerEvent : Type :=
| Inserted (NEW : Row.t)
| Updated (OLD NEW : Row.t)
| Deleted (OLD : Row.t).

Definition TG_OP (ev : TriggerEvent) : string :=
  match ev with
  | Inserted _ => "INSERT"
  | Updated _ _ => "UPDATE"
  | Deleted _ => "DELETE"
  end.

(** A column of type [varchar] that may be [NULL]. *)
Definition nullable (v : option string) : json :=
  match v with
  | Some x => JStr x
  | None => JNull
  end.

(** The [payload] variable of [notify_message_change] after the
    [IF ... ELSIF ... END IF]. *)
Definition payload (TG_TABLE_NAME : string) (ev : TriggerEvent) : json :=
  match ev with
  | Inserted NEW =>
      JObj [ ("operation", JStr (TG_OP ev));
             ("table", JStr TG_TABLE_NAME);
             ("id", JNum (Row.id NEW));
             ("group_uuid", JStr (Row.group_uuid NEW));
             ("sender_uuid", JStr (Row.sender_uuid NEW));
             ("content", JStr (Row.content NEW));
             ("file", nullable (Row.file NEW));
             ("created_date", JStr (Row.created_date NEW));
             ("is_deleted", JBool (Row.is_deleted NEW)) ]
  | Updated OLD NEW =>
      JObj [ ("operation", JStr (TG_OP ev));
             ("table", JStr TG_TABLE_NAME);
             ("id", JNum (Row.id NEW));
             ("group_uuid", JStr (Row.group_uuid NEW));
             ("sender_uuid", JStr (Row.sender_uuid NEW));
             ("content", JStr (Row.content NEW));
             ("file", nullable (Row.file NEW));
             ("created_date", JStr (Row.created_date NEW));
             ("is_deleted", JBool (Row.is_deleted NEW));
             ("old_id", JNum (Row.id OLD));
             ("old_content", JStr (Row.content OLD));
             ("old_is_deleted", JBool (Row.is_deleted OLD)) ]
  | Deleted OLD =>
      JObj [ ("operation", JStr (TG_OP ev));
             ("table", JStr TG_TABLE_NAME);
             ("id", JNum (Row.id OLD));
             ("group_uuid", JStr (Row.group_uuid OLD));
             ("sender_uuid", JStr (Row.sender_uuid OLD)) ]
  end.

(** A [pg_notify(channel, text)]; the text is kept as the JSON value it
    is the rendering of. *)
Record Notification : Type := mkNotification {
  channel : string;
  message : json
}.

(** The body of [notify_message_change()]: one [pg_notify] per call. *)
Definition notify_message_change (TG_TABLE_NAME : string) (ev : TriggerEvent)
    : list Notification :=
  [ mkNotification "message_changes" (payload TG_TABLE_NAME ev) ].

(** The catalog: tables, functions of no argument by name, triggers by
    table and name (PostgreSQL keeps both unique).  The role of the
    connection is taken to own what it touches: privileges are not part of
    the catalog here. *)
Inductive Timing : Type := BEFORE | AFTER.
Inductive Op : Type := INSERT | UPDATE | DELETE.
Inductive Level : Type := ROW | STATEMENT.

#[global] Instance Op_eq_dec : EqDecision Op.
Proof. solve_decision. Defined.

Record Trigger : Type := mkTrigger {
  tg_timing : Timing;
  tg_events : list Op;
  tg_level : Level;
  tg_function : string
}.

Definition PlFunction : Type := string -> TriggerEvent -> list Notification.

(** A function of the catalog: one that returns [TRIGGER], with what a call
    from a trigger does, or one that returns some other type. *)
Inductive Function : Type :=
| ReturnsTrigger (body : PlFunction)
| ReturnsOther (type : string).

Record Database : Type := mkDatabase {
  tables : gset string;
  functions : gmap string Function;
  triggers : gmap (string * string) Trigger
}.

(** The statements of the two query texts. *)
Inductive Ddl : Type :=
| CreateOrReplaceFunction (name : string) (body : PlFunction)
| DropTriggerIfExists (name table : string)
| CreateTrigger (name : string) (tg : Trigger) (table : string).

(** One statement; [None] is an error, which leaves the catalog as it
    was.  [CREATE OR REPLACE FUNCTION ... RETURNS TRIGGER] replaces a
    trigger function of the name or creates one, and is refused when the
    name is held by a function of another return type.  [CREATE TRIGGER]
    needs the table and a function that returns [TRIGGER], and refuses a
    name already taken on the table.  [DROP TRIGGER IF EXISTS] never
    fails. *)
Definition exec_ddl (d : Ddl) (db : Database) : option Database :=
  match d with
  | CreateOrReplaceFunction name body =>
      match functions db !! name with
      | Some (ReturnsOther _) => None
      | _ =>
          Some (mkDatabase (tables db)
                           (<[name := ReturnsTrigger body]> (functions db))
                           (triggers db))
      end
  | DropTriggerIfExists name table =>
      Some (mkDatabase (tables db) (functions db) (delete (table, name) (triggers db)))
  | CreateTrigger name tg table =>
      if decide (table ∈ tables db) then
        match functions db !! tg_function tg, triggers db !! (table, name) with
        | Some (ReturnsTrigger _), None =>
            Some (mkDatabase (tables db) (functions db)
                             (<[(table, name) := tg]> (triggers db)))
        | _, _ => None
        end
      else None
  end.

(** A query text of several statements runs as one transaction. *)
Fixpoint exec_script (ds : list Ddl) (db : Database) : option Database :=
  match ds with
  | [] => Some db
  | d :: rest => exec_ddl d db ≫= exec_script rest
  end.

Definition messages_notify_trigger : Trigger :=
  mkTrigger AFTER [INSERT; UPDATE; DELETE] ROW "notify_message_change".

(** The statements in the text of each query ([LISTEN], [UNLISTEN] and the
    test [pg_notify] do not touch the catalog). *)
Definition statements (q : Sql) : list Ddl :=
  match q with
  | createFunctionQuery =>
      [CreateOrReplaceFunction "notify_message_change" notify_message_change]
  | createTriggerQuery =>
      [DropTriggerIfExists "messages_notify_trigger" "messages";
       CreateTrigger "messages_notify_trigger" messages_notify_trigger "messages"]
  | _ => []
  end.

(** What [setupTriggers] does to the database when both queries reach the
    server: the first is committed before the second is sent. *)
Definition install (db : Database) : option Database :=
  exec_script (statements createFunctionQuery) db
    ≫= exec_script (statements createTriggerQuery).

(** [setupTriggers] run [n] times in a row. *)
Fixpoint install_times (n : nat) (db : Database) : option Database :=
  match n with
  | O => Some db
  | S n' => install db ≫= install_times n'
  end.

Definition op_of (ev : TriggerEvent) : Op :=
  match ev with
  | Inserted _ => INSERT
  | Updated _ _ => UPDATE
  | Deleted _ => DELETE
  end.

(** The triggers a statement changing one row of [table] fires. *)
Definition fired (table : string) (ev : TriggerEvent)
    (entry : (string * string) * Trigger) : Prop :=
  entry.1.1 = table ∧ op_of ev ∈ tg_events entry.2.

#[global] Instance fired_dec table ev entry : Decision (fired table ev entry).
Proof. unfold fired. apply _. Defined.

(** The calls of [pg_notify] made for one row of [table] that a committed
    statement changes: every trigger fired for the row calls its function
    once.  PostgreSQL delivers them at commit, and folds into one the
    calls of a transaction that have the same channel and the same text:
    one call is one notification delivered, and calls with different texts
    are delivered each.  The order of the list is the order of the catalog
    map. *)
Definition notifications (db : Database) (table : string) (ev : TriggerEvent)
    : list Notification :=
  map_to_list (filter (fired table ev) (triggers db)) ≫= λ entry,
    match functions db !! tg_function entry.2 with
    | Some (ReturnsTrigger f) => f table ev
    | _ => []
    end.

(** A statement changes any number of rows, and a [FOR EACH ROW] trigger is
    fired for each of them. *)
Definition statement_notifications (db : Database) (table : string)
    (rows : list TriggerEvent) : list Notification :=
  rows ≫= notifications db table.

(** ** Notions used to state the properties *)

(** What one run of [setupTriggers] that succeeds makes of a catalog. *)
Definition installed (db : Database) : Database :=
  mkDatabase (tables db)
    (<["notify_message_change" := ReturnsTrigger notify_message_change]>
       (functions db))
    (<[("messages", "messages_notify_trigger") := messages_notify_trigger]>
       (triggers db)).

(** The name of the notification function is free, or held by a function
    that returns [TRIGGER]. *)
Definition name_available (db : Database) : Prop :=
  ∀ type, functions db !! "notify_message_change" ≠ Some (ReturnsOther type).

(** The row a notification is about: the new image when there is one,
    else the old one. *)
Definition subject (ev : TriggerEvent) : Row.t :=
  match ev with
  | Inserted NEW => NEW
  | Updated _ NEW => NEW
  | Deleted OLD => OLD
  end.

Section Notions.

Context {U : Type}.
Variable call : Callback -> json -> Store U -> Store U * completion.

(** The registry is as the methods build it: two topics never share an
    array, and every array the [Map] refers to exists. *)
Definition well_formed (s : Store U) : Prop :=
  (∀ e1 e2 l, listeners (this s) !! e1 = Some l →
              listeners (this s) !! e2 = Some l → e1 = e2) ∧
  (∀ e l, listeners (this s) !! e = Some l → is_Some (arrays s !! l)).

(** Publish as the specification words it: the event goes to the handlers
    registered when publish is called, in registration order; what a
    handler throws is caught and logged, and the next handler is called. *)
Fixpoint deliver (handlers : list Callback) (data : json) (s : Store U)
    : Store U * list Output :=
  match handlers with
  | [] => (s, [])
  | h :: rest =>
      let '(s1, r) := call h data s in
      let '(s2, out) := deliver rest data s1 in
      (s2, Called h data ::
           match r with
           | Returned => out
           | Threw e => LogError "Error in event callback:" e :: out
           end)
  end.

(** The calls made to subscribers, in order. *)
Definition calls (out : list Output) : list (Callback * json) :=
  omap (λ o, match o with Called cb d => Some (cb, d) | _ => None end) out.

(** No handler of the list changes the array object at [l] when it is given
    [data]. *)
Definition leaves_array (l : loc) (handlers : list Callback) (data : json) : Prop :=
  ∀ h s, h ∈ handlers → arrays (call h data s).1 !! l = arrays s !! l.

(** Every registration of the list is still at its place in the array at
    [l], from position [k] on, when its turn comes: the first is there in
    [s], the second after the first handler has run, and so on.  What the
    handlers do to the rest of the array, to other arrays and to the [Map]
    is left open. *)
Fixpoint in_place (l : loc) (k : nat) (todo : list Callback) (data : json)
    (s : Store U) : Prop :=
  match todo with
  | [] => True
  | h :: rest =>
      (arrays s !! l ≫= λ cbs, cbs !! k) = Some h ∧
      in_place l (S k) rest data (call h data s).1
  end.

(** No handler of the list changes the [Map] or any array. *)
Definition leaves_registry (handlers : list Callback) (data : json) : Prop :=
  ∀ h s, h ∈ handlers →
    listeners (this (call h data s).1) = listeners (this s) ∧
    arrays (call h data s).1 = arrays s.

End Notions.

(** From [w] to [w'] no subscriber was called and the subscribers' own
    state was not touched: only other outputs were added to the trace. *)
Definition unnoticed {U : Type} (w w' : World U) : Prop :=
  ∃ out, trace w' = trace w ++ out ∧ calls out = [] ∧
         user (store w') = user (store w) ∧
         listeners (this (store w')) = listeners (this (store w)) ∧
         arrays (store w') = arrays (store w).

(** The same process with more history before its trace: what the program
    does never depends on what it has printed. *)
Definition with_history {U : Type} (before : list Output) (w : World U) : World U :=
  mkWorld (store w) (wired w) (tasks w) (next_client w) (before ++ trace w).

(** The reconnect attempts in progress: suspended in [reconnect] itself or
    in the [connect()] it awaits, or waiting for the retry timer. *)
Definition in_reconnect (p : Pending) : bool :=
  match p with
  | AwaitReconnectEnd | AwaitReconnectDelay | RetryTimer => true
  | AwaitClientConnect FromReconnect | AwaitCreateFunction FromReconnect
  | AwaitCreateTrigger FromReconnect | AwaitListen FromReconnect => true
  | _ => false
  end.

Definition reconnects_in_progress {U : Type} (w : World U) : nat :=
  length (filter (λ p, in_reconnect p = true) (map_to_list (tasks w)).*2).

(** ** The callers of the listener *)

(** [routes/health.js], [GET /]: the constant [listenerStatus], that is
    [listener && listener.isListening ? 'Active' : 'Inactive'], where
    [listener] is what the application context holds under
    ['postgresListener'] ([None] for [undefined]). *)
Definition listenerStatus (listener : option PostgresListener) : string :=
  match listener with
  | Some l => if isListening l then "Active" else "Inactive"
  | None => "Inactive"
  end.

(** A response: the status code and the JSON body. *)
Record Response : Type := mkResponse {
  code : nat;
  body : json
}.

(** [routes/health.js], [GET /].  [probe] is how the promise of
    [prisma.$queryRaw`SELECT 1`] settled, with the [message] of the error
    when it was rejected; [now] is [new Date().toISOString()] at the time
    of the answer.  The listener is looked at only after the probe went
    through. *)
Definition health_route (now : string) (probe : completion)
    (listener : option PostgresListener) : Response :=
  match probe with
  | Returned =>
      mkResponse 200
        (JObj [("status", JStr "OK");
               ("database", JStr "Connected");
               ("listener", JStr (listenerStatus listener));
               ("timestamp", JStr now)])
  | Threw message =>
      mkResponse 500
        (JObj [("status", JStr "Error");
               ("database", JStr "Disconnected");
               ("error", JStr message);
               ("timestamp", JStr now)])
  end.

(** [examples/messageOperations.js], [GET /listener-status]: no probe of
    the database, and an answer of its own when there is no listener. *)
Definition listener_status_route (now : string)
    (listener : option PostgresListener) : Response :=
  match listener with
  | None =>
      mkResponse 200
        (JObj [("status", JStr "Not Initialized");
               ("message", JStr "PostgreSQL listener has not been initialized")])
  | Some l =>
      mkResponse 200
        (JObj [("status", JStr (if isListening l then "Active" else "Inactive"));
               ("isListening", JBool (isListening l));
               ("timestamp", JStr now)])
  end.

(** The reply of the [POST /notification] test route once the promise of
    [listener.testNotification()] it awaits has settled: the success
    message, or status 500 with the message of the error caught. *)
Record Reply : Type := mkReply {
  status : nat;
  text : string
}.

Definition notification_route_reply (r : completion) : Reply :=
  match r with
  | Returned => mkReply 200 "Test notification sent successfully"
  | Threw e => mkReply 500 e
  end.

(** How the promise of the first call of [f] settled, read off the
    outputs. *)
Fixpoint settlement (f : Api) (out : list Output) : option completion :=
  match out with
  | [] => None
  | Settled f' r :: rest =>
      match f, f' with
      | ApiConnect, ApiConnect | ApiDisconnect, ApiDisconnect
      | ApiTestNotification, ApiTestNotification => Some r
      | _, _ => settlement f rest
      end
  | _ :: rest => settlement f rest
  end.

(** Inputs that are neither a registration nor a notification. *)
Definition lifecycle_input (i : Input) : Prop :=
  match i with
  | Emits _ (notification _) | Subscribe _ _ | Unsubscribe _ _
  | UnsubscribeAll _ => False
  | _ => True
  end.

Definition not_a_notification (i : Input) : Prop :=
  match i with
  | Emits _ (notification _) => False
  | _ => True
  end.

(** A listener that is not listening, with no handler on any client and
    nothing pending but calls of [disconnect] and [testNotification]: the
    state a failed first [connect()] leaves. *)
Definition idle_pending (p : Pending) : Prop :=
  p = AwaitUnlisten ∨ p = AwaitDisconnectEnd ∨ p = AwaitTestNotify.

Definition dormant {U : Type} (w : World U) : Prop :=
  isListening (this (store w)) = false ∧
  wired w = [] ∧
  map_Forall (λ _ p, idle_pending p) (tasks w).

(** [middleware/errorHandler.js], which [app.js] mounts last: the status
    code and the error text of the reply, from the fields of the error the
    handler reads ([None] for a field that is missing). *)
Module Middleware.

Record Error : Type := mkError {
  name : option string;
  code : option string;
  message : option string
}.

Record Answer : Type := mkAnswer {
  statusCode : nat;
  error : option string
}.

Definition errorHandler (err : Error) : Answer :=
  if decide (name err = Some "ValidationError") then mkAnswer 400 (message err)
  else if decide (name err = Some "UnauthorizedError") then
    mkAnswer 401 (Some "Unauthorized")
  else if decide (name err = Some "NotFoundError") then
    mkAnswer 404 (Some "Resource not found")
  else if decide (code err = Some "P2002") then
    mkAnswer 409 (Some "Resource already exists")
  else if decide (code err = Some "P2025") then
    mkAnswer 404 (Some "Record not found")
  else
    match message err with
    | Some m =>
        if decide (m = "") then mkAnswer 500 (Some "Internal Server Error")
        else mkAnswer 500 (Some m)
    | None => mkAnswer 500 (Some "Internal Server Error")
    end.

End Middleware.

(** One reconnect attempt that fails, as the environment plays it for the
    pending name [t]: [client.end()] resolves, the 5 s pass,
    [client.connect()] on the new client is rejected with [e], the 10 s
    pass. *)
Definition failed_attempt (t : nat) (e : Err) : list Input :=
  [Settle t Returned; Settle t Returned; Settle t (Threw e); Settle t Returned].

(** ** Instances of the built-ins, to run the model *)

(** A parser for a part of what [JSON.parse] accepts, to run the model on
    texts: objects, arrays, strings with their escapes, integers, booleans
    and [null].  Strings are kept as their UTF-8 bytes.  Of a repeated key
    the last value is kept, at the place of the first, as in a JavaScript
    object.  It is narrower than the built-in: fractions, exponents,
    integers beyond 2^53 (which Node rounds) and escapes of surrogate
    halves are refused here and accepted by Node.  The properties below
    take the parser as a parameter and do not depend on this one; it is
    used on the texts of the examples, which are in the common part. *)
Module JSON.

Definition is_ws (c : ascii) : bool :=
  let n := nat_of_ascii c in
  (n =? 32)%nat || (n =? 9)%nat || (n =? 10)%nat || (n =? 13)%nat.

Fixpoint skip_ws (s : string) : string :=
  match s with
  | String c rest => if is_ws c then skip_ws rest else s
  | EmptyString => s
  end.

Fixpoint literal (word s : string) : option string :=
  match word, s with
  | EmptyString, _ => Some s
  | String a word', String b s' => if Ascii.eqb a b then literal word' s' else None
  | String _ _, EmptyString => None
  end.

Definition unescape (c : ascii) : option ascii :=
  let n := nat_of_ascii c in
  if (n =? 34)%nat then Some c            (* escaped double quote *)
  else if (n =? 92)%nat then Some c       (* escaped backslash *)
  else if (n =? 47)%nat then Some c       (* escaped slash *)
  else if (n =? 110)%nat then Some (ascii_of_nat 10)  (* line feed *)
  else if (n =? 116)%nat then Some (ascii_of_nat 9)   (* tab *)
  else if (n =? 114)%nat then Some (ascii_of_nat 13)  (* carriage return *)
  else if (n =? 98)%nat then Some (ascii_of_nat 8)    (* backspace *)
  else if (n =? 102)%nat then Some (ascii_of_nat 12)  (* form feed *)
  else None.

Definition hex (c : ascii) : option N :=
  let n := N_of_ascii c in
  if ((48 <=? n) && (n <=? 57))%N then Some (n - 48)%N
  else if ((97 <=? n) && (n <=? 102))%N then Some (n - 87)%N
  else if ((65 <=? n) && (n <=? 70))%N then Some (n - 55)%N
  else None.

(** The UTF-8 bytes of a code unit written as four hex digits; a surrogate
    half has none of its own. *)
Definition utf8 (n : N) (tail : string) : option string :=
  if (n <? 128)%N then Some (String (ascii_of_N n) tail)
  else if (n <? 2048)%N then
    Some (String (ascii_of_N (192 + n / 64))
            (String (ascii_of_N (128 + n mod 64)) tail))
  else if ((55296 <=? n) && (n <? 57344))%N then None
  else
    Some (String (ascii_of_N (224 + n / 4096))
            (String (ascii_of_N (128 + (n / 64) mod 64))
               (String (ascii_of_N (128 + n mod 64)) tail))).

(** The characters of a string literal after its opening quote. *)
Fixpoint chars (s : string) : option (string * string) :=
  match s with
  | EmptyString => None
  | String c rest =>
      let n := nat_of_ascii c in
      if (n =? 34)%nat then Some (EmptyString, rest)
      else if (n =? 92)%nat then
        match rest with
        | String e rest' =>
            if (nat_of_ascii e =? 117)%nat then       (* u and four hex digits *)
              match rest' with
              | String h1 (String h2 (String h3 (String h4 rest''))) =>
                  match hex h1, hex h2, hex h3, hex h4, chars rest'' with
                  | Some d1, Some d2, Some d3, Some d4, Some (str, r) =>
                      match utf8 (4096 * d1 + 256 * d2 + 16 * d3 + d4)%N str with
                      | Some str' => Some (str', r)
                      | None => None
                      end
                  | _, _, _, _, _ => None
                  end
              | _ => None
              end
            else
            match unescape e, chars rest' with
            | Some ch, Some (str, r) => Some (String ch str, r)
            | _, _ => None
            end
        | EmptyString => None
        end
      else if (n <? 32)%nat then None
      else
        match chars rest with
        | Some (str, r) => Some (String c str, r)
        | None => None
        end
  end.

Definition digit (c : ascii) : option Z :=
  let n := nat_of_ascii c in
  if ((48 <=? n) && (n <=? 57))%nat then Some (Z.of_nat (n - 48)) else None.

Fixpoint digits (acc : Z) (s : string) : Z * string :=
  match s with
  | String c rest =>
      match digit c with
      | Some d => digits (10 * acc + d) rest
      | None => (acc, s)
      end
  | EmptyString => (acc, s)
  end.

(** An integer: at least one digit, no leading zero before another
    digit, and within the range where a JavaScript number is exact. *)
Definition exact (r : Z * string) : option (Z * string) :=
  if (r.1 <=? 9007199254740992)%Z then Some r else None.

Definition natural (s : string) : option (Z * string) :=
  match s with
  | String c rest =>
      match digit c with
      | Some 0%Z =>
          match rest with
          | String c' _ =>
              match digit c' with
              | Some _ => None
              | None => Some (0%Z, rest)
              end
          | EmptyString => Some (0%Z, rest)
          end
      | Some d => exact (digits d rest)
      | None => None
      end
  | EmptyString => None
  end.

(** A member read before the members [ms] that follow it in the text: a
    later member of the same key gives the value, the first gives the
    place. *)
Definition add_member (k : string) (v : json) (ms : list (string * json))
    : list (string * json) :=
  (k, default v (assoc k ms)) :: filter (λ m, m.1 ≠ k) ms.

Fixpoint value (fuel : nat) (s : string) : option (json * string) :=
  match fuel with
  | O => None
  | S fuel' =>
      match skip_ws s with
      | EmptyString => None
      | String c rest as s' =>
          let n := nat_of_ascii c in
          if (n =? 123)%nat then               (* { *)
            match skip_ws rest with
            | String c' rest' =>
                if (nat_of_ascii c' =? 125)%nat then Some (JObj [], rest')
                else match members fuel' rest with
                     | Some (ms, r) => Some (JObj ms, r)
                     | None => None
                     end
            | EmptyString => None
            end
          else if (n =? 91)%nat then           (* [ *)
            match skip_ws rest with
            | String c' rest' =>
                if (nat_of_ascii c' =? 93)%nat then Some (JArr [], rest')
                else match elements fuel' rest with
                     | Some (vs, r) => Some (JArr vs, r)
                     | None => None
                     end
            | EmptyString => None
            end
          else if (n =? 34)%nat then           (* double quote *)
            match chars rest with
            | Some (str, r) => Some (JStr str, r)
            | None => None
            end
          else if (n =? 45)%nat then           (* - *)
            match natural rest with
            | Some (z, r) => Some (JNum (- z), r)
            | None => None
            end
          else
            match literal "null" s', literal "true" s', literal "false" s' with
            | Some r, _, _ => Some (JNull, r)
            | _, Some r, _ => Some (JBool true, r)
            | _, _, Some r => Some (JBool false, r)
            | _, _, _ =>
                match natural s' with
                | Some (z, r) => Some (JNum z, r)
                | None => None
                end
            end
      end
  end
with elements (fuel : nat) (s : string) : option (list json * string) :=
  match fuel with
  | O => None
  | S fuel' =>
      match value fuel' s with
      | Some (v, r) =>
          match skip_ws r with
          | String c r' =>
              if (nat_of_ascii c =? 44)%nat then      (* , *)
                match elements fuel' r' with
                | Some (vs, r'') => Some (v :: vs, r'')
                | None => None
                end
              else if (nat_of_ascii c =? 93)%nat then Some ([v], r')
              else None
          | EmptyString => None
          end
      | None => None
      end
  end
with members (fuel : nat) (s : string) : option (list (string * json) * string) :=
  match fuel with
  | O => None
  | S fuel' =>
      match skip_ws s with
      | String q rest =>
          if (nat_of_ascii q =? 34)%nat then
            match chars rest with
            | Some (k, r) =>
                match skip_ws r with
                | String colon r1 =>
                    if (nat_of_ascii colon =? 58)%nat then
                      match value fuel' r1 with
                      | Some (v, r2) =>
                          match skip_ws r2 with
                          | String c r3 =>
                              if (nat_of_ascii c =? 44)%nat then
                                match members fuel' r3 with
                                | Some (ms, r4) => Some (add_member k v ms, r4)
                                | None => None
                                end
                              else if (nat_of_ascii c =? 125)%nat
                                   then Some ([(k, v)], r3)
                              else None
                          | EmptyString => None
                          end
                      | None => None
                      end
                    else None
                | EmptyString => None
                end
            | None => None
            end
          else None
      | EmptyString => None
      end
  end.

Definition parse (text : string) : option json :=
  match value (2 * String.length text + 2) text with
  | Some (v, rest) =>
      match skip_ws rest with
      | EmptyString => Some v
      | String _ _ => None
      end
  | None => None
  end.

End JSON.

(** Three subscribers whose closures keep no state of their own: one that
    returns (as the one [app.js] registers, which logs), one that throws,
    and one that takes itself off the topic when it is called. *)
Definition quiet_handler : Callback := 0.
Definition throwing_handler : Callback := 1.
Definition once_handler : Callback := 2.

Definition demo_call (cb : Callback) (data : json) (s : Store unit)
    : Store unit * completion :=
  match cb with
  | 1 => (s, Threw "Error: handler failed")
  | 2 => (off "message_change" once_handler s, Returned)
  | _ => (s, Returned)
  end.

Definition demo_run : World unit -> list Input -> World unit :=
  run demo_call JSON.parse.

(** A listener that has connected: [connect()] went through its four
    awaits. *)
Definition listening_world : World unit :=
  demo_run (constructor tt)
    [Invoke ApiConnect; Settle 0 Returned; Settle 0 Returned;
     Settle 0 Returned; Settle 0 Returned].

(** Stores and processes to run the model on. *)
Definition new_store : Store unit := store (constructor tt).

(** Three registrations under one topic: the quiet handler, the throwing
    one, the quiet one again. *)
Definition busy_store : Store unit :=
  on "message_change" quiet_handler
    (on "message_change" throwing_handler
       (on "message_change" quiet_handler new_store)).

(** The self-removing handler registered before the quiet one. *)
Definition once_store : Store unit :=
  on "message_change" quiet_handler (on "message_change" once_handler new_store).




(** A connected listener with the subscribers of [busy_store]. *)
Definition busy_world : World unit :=
  demo_run listening_world
    [Subscribe "message_change" quiet_handler;
     Subscribe "message_change" throwing_handler;
     Subscribe "message_change" quiet_handler].

(** [connect()] under way: the client is connected, the first query of
    [setupTriggers] has been sent. *)
Definition connecting_world : World unit :=
  demo_run (constructor tt) [Invoke ApiConnect; Settle 0 Returned].

(** A database with the [messages] table and nothing else. *)
Definition new_database : Database := mkDatabase {["messages"]} ∅ ∅.

(** A database where the migrations have not run: no table yet. *)
Definition empty_database : Database := mkDatabase ∅ ∅ ∅.

Definition a_row : Row.t :=
  Row.mk 7 "group-1" "user-1" "hi" None "2024-01-01T00:00:00Z" false.

(** A catalog where a trigger and a function of the installer's names
    exist with other contents. *)
Definition drifted_database : Database :=
  mkDatabase {["messages"]}
    {["notify_message_change" := ReturnsTrigger (λ _ _, [])]}
    {[("messages", "messages_notify_trigger") :=
        mkTrigger BEFORE [INSERT] STATEMENT "notify_message_change"]}.

(** A catalog that already announces the changes of [messages] in its own
    way: a trigger of another name, with a function of another name that
    notifies the same channel with the id of the row only. *)
Definition notify_message_id : PlFunction :=
  λ _ ev, [mkNotification "message_changes"
             (JObj [("id", JNum (Row.id (subject ev)))])].

Definition legacy_database : Database :=
  mkDatabase {["messages"]}
    {["notify_message_id" := ReturnsTrigger notify_message_id]}
    {[("messages", "message_changes_trigger") :=
        mkTrigger AFTER [INSERT; UPDATE; DELETE] ROW "notify_message_id"]}.

Definition another_row : Row.t :=
  Row.mk 8 "group-1" "user-2" "hello" None "2024-01-01T00:00:05Z" false.

(** A catalog where the function name is held by a function that returns
    [void]. *)
Definition blocked_database : Database :=
  mkDatabase {["messages"]} {["notify_message_change" := ReturnsOther "void"]} ∅.

(** The process after a first [connect()] whose [LISTEN] was rejected. *)
Definition failed_world : World unit :=
  demo_run (constructor tt)
    [Invoke ApiConnect; Settle 0 Returned; Settle 0 Returned;
     Settle 0 Returned; Settle 0 (Threw "LISTEN failed")].

(** The text of the test notification, as [testNotification] writes it
    between the single quotes of the SQL literal. *)
Definition quoted (s : string) : string :=
  String (ascii_of_nat 34) s +:+ String (ascii_of_nat 34) "".

Definition test_payload : string :=
  "{" +:+ quoted "operation" +:+ ": " +:+ quoted "TEST" +:+ ", "
      +:+ quoted "table" +:+ ": " +:+ quoted "messages" +:+ ", "
      +:+ quoted "message" +:+ ": " +:+ quoted "Test notification" +:+ "}".

(** * Properties *)

(** ** The event bus *)

Section BusProperties.

Context {U : Type}.
Variable call : Callback -> json -> Store U -> Store U * completion.

Lemma indexOf_None (callback : Callback) (cbs : list Callback) :
  indexOf callback cbs = None ↔ callback ∉ cbs.
Proof.
  induction cbs as [|cb rest IH]; simpl.
  - split; [intros _; by apply not_elem_of_nil | done].
  - rewrite not_elem_of_cons. case_decide as Heq.
    + split; [done | intros [Hne _]; congruence].
    + destruct (indexOf callback rest) as [i|] eqn:Hi; simpl.
      * split; [done | intros [_ Hnot]; by apply IH in Hnot].
      * split; [intros _; split; [congruence | by apply IH] | done].
Qed.

Lemma indexOf_Some (callback : Callback) (cbs : list Callback) (index : nat) :
  indexOf callback cbs = Some index →
  ∃ before after,
    cbs = before ++ callback :: after ∧ (callback ∉ before) ∧
    splice1 index cbs = before ++ after.
Proof.
  revert index. induction cbs as [|cb rest IH]; intros index; simpl; [done|].
  case_decide as Heq.
  - intros [= <-]. subst cb. exists [], rest. split_and!; [done | apply not_elem_of_nil | done].
  - destruct (indexOf callback rest) as [i|] eqn:Hi; simpl; [|done].
    intros [= <-]. destruct (IH i eq_refl) as (before & after & -> & Hnot & Hsp).
    exists (cb :: before), after. split_and!.
    + done.
    + rewrite not_elem_of_cons. split; [congruence | done].
    + unfold splice1 in *. simpl. by f_equal.
Qed.

Lemma off_this (event : string) (callback : Callback) (s : Store U) :
  this (off event callback s) = this s ∧ user (off event callback s) = user s.
Proof.
  unfold off. repeat case_match; done.
Qed.

(** The registry is well formed when the listener is constructed, and the
    three methods that change it keep it so. *)
Lemma well_formed_constructor (u : U) (c : option ClientId) (b : bool) :
  well_formed (mkStore (mkListener c b ∅) ∅ u).
Proof.
  split; [intros e1 e2 l Hl | intros e l Hl]; cbn in Hl;
    by rewrite lookup_empty in Hl.
Qed.

Lemma well_formed_on (event : string) (callback : Callback) (s : Store U) :
  well_formed s → well_formed (on event callback s).
Proof.
  intros [Hinj Hdom]. unfold on.
  destruct (listeners (this s) !! event) as [l|] eqn:Hl.
  - rewrite Hl. split; [exact Hinj|]. intros e l' He. cbn in *.
    destruct (decide (l' = l)) as [->|Hne].
    + rewrite lookup_alter_eq. destruct (Hdom _ _ He) as [cbs ->]. by eexists.
    + rewrite lookup_alter_ne by done. by eapply Hdom.
  - cbn. rewrite lookup_insert_eq. cbn.
    set (l := fresh (dom (arrays s))).
    assert (arrays s !! l = None) as Hfresh by apply not_elem_of_dom, is_fresh.
    assert (∀ e, listeners (this s) !! e ≠ Some l) as Hunused.
    { intros e He. destruct (Hdom _ _ He) as [cbs Hcbs]. congruence. }
    unfold well_formed. cbn. fold l. split.
    + intros e1 e2 l'.
      destruct (decide (e1 = event)) as [->|H1], (decide (e2 = event)) as [->|H2];
        rewrite ?lookup_insert_eq, ?lookup_insert_ne by done; try done.
      * intros [= <-] He. by apply Hunused in He.
      * intros He [= <-]. by apply Hunused in He.
      * apply Hinj.
    + intros e l'. destruct (decide (e = event)) as [->|He].
      * rewrite lookup_insert_eq. intros [= <-].
        rewrite lookup_alter_eq, lookup_insert_eq. by eexists.
      * rewrite lookup_insert_ne by done. intros Hl'.
        assert (l' ≠ l) as Hne by (intros ->; by apply Hunused in Hl').
        rewrite lookup_alter_ne, lookup_insert_ne by done. by eapply Hdom.
Qed.

Lemma well_formed_off (event : string) (callback : Callback) (s : Store U) :
  well_formed s → well_formed (off event callback s).
Proof.
  intros [Hinj Hdom]. unfold off.
  destruct (listeners (this s) !! event) as [l|] eqn:Hl; [|done].
  destruct (arrays s !! l) as [cbs|] eqn:Hcbs; [|done].
  destruct (indexOf callback cbs) as [index|]; [|done].
  split; [exact Hinj|]. intros e l' He. cbn in *.
  destruct (decide (l' = l)) as [->|Hne].
  - rewrite lookup_insert_eq. by eexists.
  - rewrite lookup_insert_ne by done. by eapply Hdom.
Qed.

Lemma well_formed_removeAllListeners (event : option string) (s : Store U) :
  well_formed s → well_formed (removeAllListeners event s).
Proof.
  intros [Hinj Hdom].
  assert (well_formed (set_listeners (λ _, ∅) s)) as Hclear.
  { split; [intros e1 e2 l Hl | intros e l Hl]; cbn in Hl;
      by rewrite lookup_empty in Hl. }
  destruct event as [e|]; cbn; [|done]. case_decide; [done|].
  split; cbn.
  - intros e1 e2 l H1 H2.
    apply lookup_delete_Some in H1 as [_ H1], H2 as [_ H2]. by eapply Hinj.
  - intros e' l Hl. apply lookup_delete_Some in Hl as [_ Hl]. by eapply Hdom.
Qed.

(** C10.  [off(event, callback)] takes out the first registration of the
    callback under the topic and nothing else: when the callback is not
    registered under the topic (or the topic is unknown) the store is left as
    it is; otherwise the topic's list loses its first occurrence of the
    callback, the callbacks before and after it keeping their places; the
    lists of all other topics, the listener's fields and the subscribers'
    own state are the same afterwards. *)
Theorem off_removes_first_only (s : Store U) (event : string) (callback : Callback) :
  well_formed s →
  ((∀ cbs, registered s event = Some cbs → callback ∉ cbs) →
     off event callback s = s) ∧
  (∀ cbs, registered s event = Some cbs → callback ∈ cbs →
     ∃ before after,
       cbs = before ++ callback :: after ∧ (callback ∉ before) ∧
       registered (off event callback s) event = Some (before ++ after)) ∧
  (∀ event', event' ≠ event →
     registered (off event callback s) event' = registered s event') ∧
  this (off event callback s) = this s ∧
  user (off event callback s) = user s.
Proof.
  intros [Hinj Hdom]. split_and!; [| | | apply off_this | apply off_this].
  - intros Hnot. unfold off, registered in *.
    destruct (listeners (this s) !! event) as [l|] eqn:Hl; [|done]. simpl in Hnot.
    destruct (arrays s !! l) as [cbs|] eqn:Hcbs; [|done].
    specialize (Hnot cbs eq_refl). apply indexOf_None in Hnot. by rewrite Hnot.
  - intros cbs Hreg Hin. unfold off, registered in *.
    destruct (listeners (this s) !! event) as [l|] eqn:Hl; [|done]. simpl in Hreg.
    rewrite Hreg.
    destruct (indexOf callback cbs) as [index|] eqn:Hidx.
    + destruct (indexOf_Some _ _ _ Hidx) as (before & after & Heq & Hnot & Hsp).
      exists before, after. split_and!; [done | done |].
      simpl. rewrite Hl. simpl. rewrite lookup_insert_eq. by rewrite Hsp.
    + apply indexOf_None in Hidx. done.
  - intros event' Hne. unfold off, registered.
    destruct (listeners (this s) !! event) as [l|] eqn:Hl; [|done].
    destruct (arrays s !! l) as [cbs|] eqn:Hcbs; [|done].
    destruct (indexOf callback cbs) as [index|]; [|done]. simpl.
    destruct (listeners (this s) !! event') as [l'|] eqn:Hl'; [|done]. simpl.
    rewrite lookup_insert_ne; [done|].
    intros ->. apply Hne. by eapply Hinj.
Qed.

Lemma forEach_deliver (l : loc) (data : json) (cbs : list Callback) :
  leaves_array call l cbs data →
  ∀ (rest : list Callback) (k : nat) (s : Store U),
    arrays s !! l = Some cbs → drop k cbs = rest →
    forEach call (length rest) k l data s = deliver call rest data s.
Proof.
  intros Hquiet rest. induction rest as [|h rest IH]; intros k s Hl Hdrop; [done|].
  assert (cbs !! k = Some h) as Hk.
  { rewrite <- (Nat.add_0_r k), <- lookup_drop, Hdrop. done. }
  assert (h ∈ cbs) as Hin by (by eapply list_elem_of_lookup_2).
  simpl. rewrite Hl. simpl. rewrite Hk.
  pose proof (Hquiet h s Hin) as Hkeep.
  destruct (call h data s) as [s1 r] eqn:Hcall. simpl in Hkeep.
  rewrite (IH (S k) s1).
  - destruct (deliver call rest data s1) as [s2 out]. by destruct r.
  - by rewrite Hkeep.
  - by rewrite (drop_S _ _ _ Hk) in Hdrop; injection Hdrop.
Qed.

Lemma calls_deliver (handlers : list Callback) (data : json) (s : Store U) :
  calls (deliver call handlers data s).2 = (λ h, (h, data)) <$> handlers.
Proof.
  revert s. induction handlers as [|h rest IH]; intros s; [done|].
  simpl. destruct (call h data s) as [s1 r]. specialize (IH s1).
  destruct (deliver call rest data s1) as [s2 out]. simpl in *.
  destruct r; unfold calls in *; cbn; by f_equal.
Qed.

Lemma deliver_registry (handlers : list Callback) (data : json) (s : Store U) :
  leaves_registry call handlers data →
  listeners (this (deliver call handlers data s).1) = listeners (this s) ∧
  arrays (deliver call handlers data s).1 = arrays s.
Proof.
  revert s. induction handlers as [|h rest IH]; intros s Hquiet; [done|].
  simpl. destruct (Hquiet h s) as [Hm Ha]; [by left|].
  destruct (call h data s) as [s1 r]. simpl in *.
  destruct (IH s1) as [Hm' Ha'].
  { intros h' s' Hin. apply Hquiet. by right. }
  destruct (deliver call rest data s1) as [s2 out]. simpl in *.
  split; congruence.
Qed.

Lemma calls_forEach_bounded (len k : nat) (l : loc) (data : json) (s : Store U) :
  (length (calls (forEach call len k l data s).2) ≤ len)%nat.
Proof.
  revert k s. induction len as [|len IH]; intros k s; cbn; [done|].
  destruct (arrays s !! l ≫= λ cbs, cbs !! k) as [callback|].
  - destruct (call callback data s) as [s1 r].
    specialize (IH (S k) s1).
    destruct (forEach call len (S k) l data s1) as [s2 out]. cbn in *.
    destruct r; unfold calls in *; cbn; lia.
  - specialize (IH (S k) s). lia.
Qed.

Lemma calls_forEach_data (len k : nat) (l : loc) (data : json) (s : Store U) :
  Forall (λ c, c.2 = data) (calls (forEach call len k l data s).2).
Proof.
  revert k s. induction len as [|len IH]; intros k s; cbn; [done|].
  destruct (arrays s !! l ≫= λ cbs, cbs !! k) as [callback|]; [|apply IH].
  destruct (call callback data s) as [s1 r].
  specialize (IH (S k) s1).
  destruct (forEach call len (S k) l data s1) as [s2 out]. cbn in *.
  destruct r; (constructor; [done | exact IH]).
Qed.




(** Handlers that keep the registrations of publish time where they are,
    whatever they add behind them, leave every registration in place. *)
Lemma in_place_when_appending (l : loc) (data : json) (handlers : list Callback) :
  (∀ h s extra, h ∈ handlers → arrays s !! l = Some (handlers ++ extra) →
     ∃ extra', arrays (call h data s).1 !! l = Some (handlers ++ extra')) →
  ∀ (done_ rest : list Callback) (s : Store U) (extra : list Callback),
    handlers = done_ ++ rest →
    arrays s !! l = Some (handlers ++ extra) →
    in_place call l (length done_) rest data s.
Proof.
  intros Hkeep done_ rest. revert done_.
  induction rest as [|h rest IH]; intros done_ s extra Heq Hl; [done|].
  assert (h ∈ handlers) as Hh by (rewrite Heq; set_solver).
  split.
  - rewrite Hl. cbn. rewrite Heq, <- app_assoc. cbn.
    by apply list_lookup_middle.
  - destruct (Hkeep h s extra Hh Hl) as [extra' Hl'].
    replace (S (length done_)) with (length (done_ ++ [h]))
      by (rewrite length_app; cbn; lia).
    apply (IH (done_ ++ [h]) _ extra'); [|done].
    by rewrite <- app_assoc.
Qed.


(** A topic nobody subscribed to: nothing is called and nothing changes. *)
Lemma emit_no_subscriber (s : Store U) (event : string) (data : json) :
  listeners (this s) !! event = None → emit call event data s = (s, []).
Proof. intros Hl. unfold emit. by rewrite Hl. Qed.

(** *** Subscribing and clearing *)

(** X1.  [on(event, callback)] puts the callback at the end of the topic's
    list (a topic without a list gets one), whether or not the callback is
    already there; the lists of the other topics, the listener's fields and
    the subscribers' state are as before. *)
Theorem on_appends (s : Store U) (event : string) (callback : Callback) :
  well_formed s →
  registered (on event callback s) event
    = Some (default [] (registered s event) ++ [callback]) ∧
  (∀ event', event' ≠ event →
     registered (on event callback s) event' = registered s event') ∧
  client (this (on event callback s)) = client (this s) ∧
  isListening (this (on event callback s)) = isListening (this s) ∧
  user (on event callback s) = user s.
Proof.
  intros [Hinj Hdom]. unfold on, registered.
  destruct (listeners (this s) !! event) as [l|] eqn:Hl.
  - rewrite Hl. cbn. rewrite Hl. cbn.
    destruct (Hdom _ _ Hl) as [cbs Hcbs].
    rewrite lookup_alter_eq, Hcbs. cbn.
    split_and!; try done.
    intros event' Hne. destruct (listeners (this s) !! event') as [l'|] eqn:Hl'; [|done].
    cbn. rewrite lookup_alter_ne; [done|]. intros ->. apply Hne. by eapply Hinj.
  - cbn. rewrite !lookup_insert_eq. cbn. rewrite !lookup_insert_eq. cbn.
    rewrite lookup_alter_eq, lookup_insert_eq. cbn.
    split_and!; try done.
    intros event' Hne. rewrite lookup_insert_ne by done.
    destruct (listeners (this s) !! event') as [l'|] eqn:Hl'; [|done]. cbn.
    destruct (Hdom _ _ Hl') as [cbs Hcbs].
    assert (l' ≠ fresh (dom (arrays s))) as Hfresh.
    { intros ->. pose proof (is_fresh (dom (arrays s))) as Hf.
      apply not_elem_of_dom in Hf. congruence. }
    by rewrite lookup_alter_ne, lookup_insert_ne.
Qed.

Lemma indexOf_app_new (callback : Callback) (cbs : list Callback) :
  callback ∉ cbs → indexOf callback (cbs ++ [callback]) = Some (length cbs).
Proof.
  induction cbs as [|cb rest IH]; intros Hnot; cbn.
  - by rewrite decide_True.
  - apply not_elem_of_cons in Hnot as [Hne Hnot].
    rewrite decide_False by congruence. by rewrite IH.
Qed.

(** X2.  Subscribing a callback that is not yet under an existing topic
    and taking it off again gives back the very store one started from.
    Under a topic that had no list the pair leaves an empty list behind:
    the topic is known afterwards, with nobody subscribed. *)
Theorem on_then_off (s : Store U) (event : string) (callback : Callback) :
  (∀ cbs, registered s event = Some cbs → callback ∉ cbs →
     off event callback (on event callback s) = s) ∧
  (listeners (this s) !! event = None →
     registered (off event callback (on event callback s)) event = Some []).
Proof.
  split.
  - intros cbs Hreg Hnot. unfold registered in Hreg.
    destruct (listeners (this s) !! event) as [l|] eqn:Hl; [|done]. cbn in Hreg.
    unfold on. rewrite Hl. cbn. rewrite Hl. unfold off. cbn. rewrite Hl.
    rewrite lookup_alter_eq, Hreg. cbn. rewrite indexOf_app_new by done.
    unfold splice1. rewrite delete_middle, app_nil_r.
    unfold set_arrays. cbn. destruct s as [this0 arrays0 user0]. cbn in *.
    f_equal. apply map_eq. intros l'. destruct (decide (l' = l)) as [->|Hne].
    + by rewrite lookup_insert_eq.
    + by rewrite lookup_insert_ne, lookup_alter_ne.
  - intros Hl. unfold on, off, registered. rewrite Hl. cbn.
    repeat (rewrite ?lookup_insert_eq, ?lookup_alter_eq; cbn).
    rewrite !decide_True by done. cbn.
    by repeat (rewrite ?lookup_insert_eq; cbn).
Qed.

(** X3.  [removeAllListeners(event)] with a non-empty topic name forgets
    that topic and leaves the others; without an argument, or with the
    empty string (which is falsy), it forgets every topic.  It never touches
    an array, and an [emit] on a forgotten topic calls nobody. *)
Theorem removeAllListeners_forgets (s : Store U) :
  (∀ event, event ≠ "" →
     registered (removeAllListeners (Some event) s) event = None ∧
     (∀ data, emit call event data (removeAllListeners (Some event) s)
              = (removeAllListeners (Some event) s, [])) ∧
     ∀ event', event' ≠ event →
       registered (removeAllListeners (Some event) s) event' = registered s event') ∧
  (∀ event', registered (removeAllListeners None s) event' = None ∧
             registered (removeAllListeners (Some "") s) event' = None) ∧
  (∀ event, arrays (removeAllListeners event s) = arrays s ∧
            user (removeAllListeners event s) = user s).
Proof.
  split_and!.
  - intros event Hne. unfold removeAllListeners. rewrite decide_False by done.
    unfold registered, emit. cbn. rewrite lookup_delete_eq. split_and!; [done | done |].
    intros event' Hne'. by rewrite lookup_delete_ne.
  - intros event'. unfold registered. cbn. by rewrite lookup_empty.
  - intros [event|]; cbn; [case_decide|]; done.
Qed.

(** *** What a dispatch can reach *)

(** X4.  Whatever the handlers do to the registry while they run (take
    callbacks off, put new ones on, clear it), one [emit] makes at most as
    many calls as the topic had registrations when [emit] was called, and
    every call is made with the event published. *)
Theorem emit_calls_bounded
    (s : Store U) (event : string) (data : json) (handlers : list Callback) :
  registered s event = Some handlers →
  (length (calls (emit call event data s).2) ≤ length handlers)%nat ∧
  Forall (λ c, c.2 = data) (calls (emit call event data s).2).
Proof.
  intros Hreg. unfold registered in Hreg. unfold emit.
  destruct (listeners (this s) !! event) as [l|]; [|done]. cbn in Hreg.
  rewrite Hreg. split; [apply calls_forEach_bounded | apply calls_forEach_data].
Qed.

End BusProperties.

(** ** The trigger function and its installation *)

Section DatabaseProperties.

Implicit Types (db : Database) (OLD NEW : Row.t) (ev : TriggerEvent).

(** C6.  For an [UPDATE] the payload built by [notify_message_change] has
    the operation and table tags, every column of the new row ([id],
    [group_uuid], [sender_uuid], [content], [file], [created_date],
    [is_deleted]: the specification's id, groupId, senderId, content, file,
    createdDate, isDeleted) and, from the old row, [old_id], [old_content]
    and [old_is_deleted] (the specification's previousId, previousContent,
    previousIsDeleted).  The file is there as the file name, or as [null]
    when the column is [NULL].  The new row and the three old columns can
    be read back from the payload: two updates with the same payload have
    the same new row and the same old id, content and flag.  So the payload
    alone tells a soft delete: it has [old_is_deleted] false and
    [is_deleted] true exactly when the statement turned the flag on. *)
Theorem update_payload_has_pre_image (table : string) OLD NEW :
  let p := payload table (Updated OLD NEW) in
  notify_message_change table (Updated OLD NEW) = [mkNotification "message_changes" p] ∧
  keys p = ["operation"; "table"; "id"; "group_uuid"; "sender_uuid"; "content";
            "file"; "created_date"; "is_deleted";
            "old_id"; "old_content"; "old_is_deleted"] ∧
  member "operation" p = Some (JStr "UPDATE") ∧
  member "table" p = Some (JStr table) ∧
  member "id" p = Some (JNum (Row.id NEW)) ∧
  member "group_uuid" p = Some (JStr (Row.group_uuid NEW)) ∧
  member "sender_uuid" p = Some (JStr (Row.sender_uuid NEW)) ∧
  member "content" p = Some (JStr (Row.content NEW)) ∧
  member "file" p = Some (match Row.file NEW with
                          | Some file_name => JStr file_name
                          | None => JNull
                          end) ∧
  member "created_date" p = Some (JStr (Row.created_date NEW)) ∧
  member "is_deleted" p = Some (JBool (Row.is_deleted NEW)) ∧
  member "old_id" p = Some (JNum (Row.id OLD)) ∧
  member "old_content" p = Some (JStr (Row.content OLD)) ∧
  member "old_is_deleted" p = Some (JBool (Row.is_deleted OLD)) ∧
  (∀ OLD' NEW', payload table (Updated OLD' NEW') = p →
     NEW' = NEW ∧ Row.id OLD' = Row.id OLD ∧
     Row.content OLD' = Row.content OLD ∧
     Row.is_deleted OLD' = Row.is_deleted OLD) ∧
  (member "old_is_deleted" p = Some (JBool false) ∧
   member "is_deleted" p = Some (JBool true)
   ↔ Row.is_deleted OLD = false ∧ Row.is_deleted NEW = true).
Proof.
  intros p.
  assert (member "old_is_deleted" p = Some (JBool (Row.is_deleted OLD))) as Hold
    by reflexivity.
  assert (member "is_deleted" p = Some (JBool (Row.is_deleted NEW))) as Hnew
    by reflexivity.
  subst p. split_and!; try reflexivity.
  - intros OLD' NEW' Heq.
    destruct NEW as [i g sd c f d b], NEW' as [i' g' sd' c' f' d' b'].
    destruct OLD as [oi og osd oc of_ od ob], OLD' as [oi' og' osd' oc' of' od' ob'].
    cbn in Heq. injection Heq as -> -> -> -> Hf -> -> -> -> ->.
    split_and!; try reflexivity.
    f_equal. destruct f, f'; cbn in Hf; congruence.
  - rewrite Hold, Hnew. split; intros [H1 H2]; split; congruence.
Qed.

(** C7.  For a [DELETE] the payload has, besides the operation and table
    tags, only [id], [group_uuid] and [sender_uuid], taken from the old row;
    it has no [content] member, and nothing in it depends on the other
    columns of the deleted row. *)
Theorem delete_payload_is_minimal (table : string) OLD :
  let p := payload table (Deleted OLD) in
  notify_message_change table (Deleted OLD) = [mkNotification "message_changes" p] ∧
  keys p = ["operation"; "table"; "id"; "group_uuid"; "sender_uuid"] ∧
  member "operation" p = Some (JStr "DELETE") ∧
  member "table" p = Some (JStr table) ∧
  member "id" p = Some (JNum (Row.id OLD)) ∧
  member "group_uuid" p = Some (JStr (Row.group_uuid OLD)) ∧
  member "sender_uuid" p = Some (JStr (Row.sender_uuid OLD)) ∧
  member "content" p = None ∧
  (∀ content' file' created_date' is_deleted',
     payload table
       (Deleted (Row.mk (Row.id OLD) (Row.group_uuid OLD) (Row.sender_uuid OLD)
                        content' file' created_date' is_deleted')) = p).
Proof. cbn. split_and!; reflexivity. Qed.

Lemma install_Some db :
  "messages" ∈ tables db → name_available db → install db = Some (installed db).
Proof.
  intros Ht Hname. unfold install, installed. cbn.
  destruct (functions db !! "notify_message_change") as [[body|type]|] eqn:Hf;
    [| by destruct (Hname type) |].
  all: cbn; rewrite decide_True by done; cbn.
  all: rewrite lookup_insert_eq, lookup_delete_eq; cbn.
  all: by rewrite insert_delete_eq.
Qed.

Lemma install_None_table db : "messages" ∉ tables db → install db = None.
Proof.
  intros Ht. unfold install. cbn.
  destruct (functions db !! "notify_message_change") as [[body|type]|]; [| done |].
  all: cbn; by rewrite decide_False.
Qed.

Lemma install_None_name db (type : string) :
  functions db !! "notify_message_change" = Some (ReturnsOther type) →
  install db = None.
Proof. intros Hf. unfold install. cbn. by rewrite Hf. Qed.

(** A run that succeeds had the table and the name, and leaves
    [installed]. *)
Lemma install_inv db db1 :
  install db = Some db1 →
  db1 = installed db ∧ "messages" ∈ tables db ∧ name_available db.
Proof.
  intros Hi.
  destruct (decide ("messages" ∈ tables db)) as [Ht|Ht];
    [| by rewrite install_None_table in Hi].
  assert (name_available db) as Hname.
  { intros type Hf. by rewrite (install_None_name db type Hf) in Hi. }
  rewrite install_Some in Hi by done. by injection Hi as <-.
Qed.

Lemma installed_name_available db : name_available (installed db).
Proof. intros type. cbn. by rewrite lookup_insert_eq. Qed.

Lemma installed_idempotent db : installed (installed db) = installed db.
Proof. unfold installed. cbn. by rewrite !insert_insert_eq. Qed.

Lemma install_times_Some db (n : nat) :
  "messages" ∈ tables db → name_available db →
  install_times (S n) db = Some (installed db).
Proof.
  intros Ht Hname. revert db Ht Hname. induction n as [|n IH]; intros db Ht Hname.
  - change (install_times 1 db) with (install db ≫= install_times 0).
    by rewrite install_Some.
  - change (install_times (S (S n)) db) with (install db ≫= install_times (S n)).
    rewrite install_Some by done. cbn [mbind option_bind].
    rewrite IH; [by rewrite installed_idempotent | done | apply installed_name_available].
Qed.

(** The triggers on [messages] after a run, when there was no other. *)
Lemma installed_only_trigger db :
  (∀ name tg, triggers db !! ("messages", name) = Some tg →
              name = "messages_notify_trigger") →
  filter (λ entry, entry.1.1 = "messages") (triggers (installed db))
  = {[ ("messages", "messages_notify_trigger") := messages_notify_trigger ]}.
Proof.
  intros Honly. apply map_eq. intros [tbl name].
  destruct (decide ((tbl, name) = ("messages", "messages_notify_trigger")))
    as [->|Hne].
  - rewrite lookup_singleton_eq. apply map_lookup_filter_Some. split; [|done].
    apply lookup_insert_eq.
  - rewrite lookup_singleton_ne by done. apply map_lookup_filter_None.
    cbn. rewrite lookup_insert_ne by done.
    destruct (triggers db !! (tbl, name)) as [tg|] eqn:Hl; [right | by left].
    intros tg' [= <-] Htbl. cbn in Htbl. subst tbl.
    apply Honly in Hl. congruence.
Qed.

(** With no other trigger on [messages], a statement raises the one
    notification of [notify_message_change]. *)
Lemma installed_notifies_once db ev :
  (∀ name tg, triggers db !! ("messages", name) = Some tg →
              name = "messages_notify_trigger") →
  notifications (installed db) "messages" ev =
  [mkNotification "message_changes" (payload "messages" ev)].
Proof.
  intros Honly. unfold notifications.
  assert (filter (fired "messages" ev) (triggers (installed db))
          = {[ ("messages", "messages_notify_trigger") := messages_notify_trigger ]})
    as ->.
  { apply map_eq. intros [tbl name].
    destruct (decide ((tbl, name) = ("messages", "messages_notify_trigger")))
      as [->|Hne].
    - rewrite lookup_singleton_eq. apply map_lookup_filter_Some. split.
      + apply lookup_insert_eq.
      + split; [done|]. cbn. destruct ev; cbn; set_solver.
    - rewrite lookup_singleton_ne by done. apply map_lookup_filter_None.
      cbn. rewrite lookup_insert_ne by done.
      destruct (triggers db !! (tbl, name)) as [tg|] eqn:Hl; [right | by left].
      intros tg' [= <-] [Htbl _]. cbn in Htbl. subst tbl.
      apply Honly in Hl. congruence. }
  rewrite map_to_list_singleton. cbn.
  by rewrite lookup_insert_eq.
Qed.

(** C8 (as amended).  On a database where [setupTriggers] succeeds once,
    running it any number of times in a row never fails and leaves the
    catalog that the single run leaves, which a further run leaves as it
    is: the catalog it started from with [notify_message_change] bound to
    the notification function and [messages_notify_trigger] bound on
    [messages] to the installer's trigger, and no other function or trigger
    changed.  Repeating the installation therefore adds no trigger and no
    notification; and when no other trigger was set on [messages], the
    table has exactly one trigger and a statement on it raises exactly one
    notification for each row it changes: one for a statement that changes
    one row. *)
Theorem setupTriggers_idempotent db db1 (n : nat) :
  install db = Some db1 →
  install_times (S n) db = Some db1 ∧
  install db1 = Some db1 ∧
  db1 = installed db ∧
  tables db1 = tables db ∧
  functions db1 !! "notify_message_change"
    = Some (ReturnsTrigger notify_message_change) ∧
  triggers db1 !! ("messages", "messages_notify_trigger")
    = Some messages_notify_trigger ∧
  (∀ name, name ≠ "notify_message_change" →
     functions db1 !! name = functions db !! name) ∧
  (∀ key, key ≠ ("messages", "messages_notify_trigger") →
     triggers db1 !! key = triggers db !! key) ∧
  ((∀ name tg, triggers db !! ("messages", name) = Some tg →
               name = "messages_notify_trigger") →
   filter (λ entry, entry.1.1 = "messages") (triggers db1)
     = {[ ("messages", "messages_notify_trigger") := messages_notify_trigger ]} ∧
   (∀ ev, notifications db1 "messages" ev =
          [mkNotification "message_changes" (payload "messages" ev)]) ∧
   (∀ rows, statement_notifications db1 "messages" rows =
            (λ ev, mkNotification "message_changes" (payload "messages" ev))
              <$> rows)).
Proof.
  intros Hi. destruct (install_inv db db1 Hi) as (-> & Ht & Hname). split_and!.
  - by apply install_times_Some.
  - rewrite install_Some; [by rewrite installed_idempotent | done |].
    apply installed_name_available.
  - done.
  - done.
  - apply lookup_insert_eq.
  - apply lookup_insert_eq.
  - intros name Hne. cbn. by rewrite lookup_insert_ne.
  - intros key Hne. cbn. by rewrite lookup_insert_ne.
  - intros Honly. split; [by apply installed_only_trigger|]. split.
    + intros ev. by apply installed_notifies_once.
    + intros rows. unfold statement_notifications.
      induction rows as [|ev rows IH]; [done|].
      cbn. rewrite installed_notifies_once by done. cbn. f_equal. apply IH.
Qed.

(** *** The payload of every operation *)

(** X5.  Whatever the operation, the payload names it ([operation] is
    [TG_OP], which tells the three operations apart), names the table, and
    carries the [id], [group_uuid] and [sender_uuid] of the row concerned:
    the new row of an insert or update, the old row of a delete. *)
Theorem payload_identifies_the_row (table : string) ev :
  member "operation" (payload table ev) = Some (JStr (TG_OP ev)) ∧
  member "table" (payload table ev) = Some (JStr table) ∧
  member "id" (payload table ev) = Some (JNum (Row.id (subject ev))) ∧
  member "group_uuid" (payload table ev) = Some (JStr (Row.group_uuid (subject ev))) ∧
  member "sender_uuid" (payload table ev) = Some (JStr (Row.sender_uuid (subject ev))) ∧
  (∀ ev', member "operation" (payload table ev') = member "operation" (payload table ev) →
          op_of ev' = op_of ev).
Proof.
  split_and!; try (destruct ev; reflexivity).
  intros ev'.
  assert (∀ e, member "operation" (payload table e) = Some (JStr (TG_OP e))) as Hop
    by (intros e; destruct e; reflexivity).
  rewrite !Hop. destruct ev, ev'; cbn; intros Heq; try done; discriminate Heq.
Qed.


(** *** Installing over what is there *)

(** X7.  The installation fails when the [messages] table is missing, and
    when the name [notify_message_change] is held by a function that does
    not return [TRIGGER]; a run that succeeds had both the table and the
    name, and leaves the tables as they were. *)
Theorem install_needs_the_table db :
  ("messages" ∉ tables db → install db = None) ∧
  (∀ type, functions db !! "notify_message_change" = Some (ReturnsOther type) →
           install db = None) ∧
  (∀ db', install db = Some db' →
          "messages" ∈ tables db ∧ name_available db ∧ tables db' = tables db).
Proof.
  split_and!.
  - apply install_None_table.
  - apply install_None_name.
  - intros db' Hi. by destruct (install_inv db db' Hi) as (-> & Ht & Hname).
Qed.

(** X8.  When the installation succeeds, what it leaves does not depend on
    what was bound before under its two names: a missing trigger, a trigger
    of that name with other settings, a trigger function of that name with
    another body are all replaced.  Two catalogs that differ only there, on
    both of which [setupTriggers] succeeds, are the same afterwards. *)
Theorem install_overrides db1 db2 db1' db2' :
  install db1 = Some db1' →
  install db2 = Some db2' →
  tables db1 = tables db2 →
  (∀ name, name ≠ "notify_message_change" →
     functions db1 !! name = functions db2 !! name) →
  (∀ key, key ≠ ("messages", "messages_notify_trigger") →
     triggers db1 !! key = triggers db2 !! key) →
  db1' = db2'.
Proof.
  intros Hi1 Hi2 Ht Hf Htg.
  destruct (install_inv _ _ Hi1) as (-> & _ & _).
  destruct (install_inv _ _ Hi2) as (-> & _ & _).
  unfold installed. rewrite Ht. f_equal.
  - apply map_eq. intros name.
    destruct (decide (name = "notify_message_change")) as [->|Hne].
    + by rewrite !lookup_insert_eq.
    + rewrite !lookup_insert_ne by done. by apply Hf.
  - apply map_eq. intros key.
    destruct (decide (key = ("messages", "messages_notify_trigger"))) as [->|Hne].
    + by rewrite !lookup_insert_eq.
    + rewrite !lookup_insert_ne by done. by apply Htg.
Qed.

End DatabaseProperties.

(** ** The error middleware *)

Ltac mem := rewrite ?elem_of_cons, ?elem_of_nil; intuition congruence.

(** X18.  The error middleware answers 400, 401, 404, 409 or 500; the name
    of the error is looked at before its code, so a recognised name decides
    the answer whatever the code; 500 is the answer exactly when neither
    the name nor the code is recognised; and the text sent is never missing
    or empty, except for a [ValidationError], whose own message is sent as
    it is. *)
Theorem errorHandler_answer (err : Middleware.Error) :
  let a := Middleware.errorHandler err in
  Middleware.statusCode a ∈ [400; 401; 404; 409; 500]%nat ∧
  (Middleware.statusCode a = 500%nat ↔
     (Middleware.name err ∉ [Some "ValidationError"; Some "UnauthorizedError";
                             Some "NotFoundError"]) ∧
     (Middleware.code err ∉ [Some "P2002"; Some "P2025"])) ∧
  (Middleware.name err ∈ [Some "ValidationError"; Some "UnauthorizedError";
                          Some "NotFoundError"] →
   ∀ code', Middleware.errorHandler
              (Middleware.mkError (Middleware.name err) code' (Middleware.message err))
            = a) ∧
  (Middleware.name err ≠ Some "ValidationError" →
   ∃ m, Middleware.error a = Some m ∧ m ≠ "").
Proof.
  destruct err as [n c m]. unfold Middleware.errorHandler. cbn.
  destruct (decide (n = Some "ValidationError")) as [->|H1]; cbn.
  { split_and!; [mem | split; [discriminate | intros [Hn _]; exfalso; apply Hn; mem]
                | by intros _ code' | done]. }
  destruct (decide (n = Some "UnauthorizedError")) as [->|H2]; cbn.
  { split_and!; [mem | split; [discriminate | intros [Hn _]; exfalso; apply Hn; mem]
                | by intros _ code'
                | intros _; by eexists]. }
  destruct (decide (n = Some "NotFoundError")) as [->|H3]; cbn.
  { split_and!; [mem | split; [discriminate | intros [Hn _]; exfalso; apply Hn; mem]
                | by intros _ code'
                | intros _; by eexists]. }
  destruct (decide (c = Some "P2002")) as [->|H4]; cbn.
  { split_and!; [mem | split; [discriminate | intros [_ Hc]; exfalso; apply Hc; mem]
                | intros Hin; exfalso; revert Hin; mem
                | intros _; by eexists]. }
  destruct (decide (c = Some "P2025")) as [->|H5]; cbn.
  { split_and!; [mem | split; [discriminate | intros [_ Hc]; exfalso; apply Hc; mem]
                | intros Hin; exfalso; revert Hin; mem
                | intros _; by eexists]. }
  assert (Middleware.statusCode
            match m with
            | Some m0 => if decide (m0 = "") then Middleware.mkAnswer 500 (Some "Internal Server Error") else Middleware.mkAnswer 500 (Some m0)
            | None => Middleware.mkAnswer 500 (Some "Internal Server Error")
            end = 500%nat) as Hs by (destruct m; [case_decide|]; done).
  split_and!.
  - rewrite Hs. mem.
  - rewrite Hs. split; [intros _; split; mem | done].
  - intros Hin; exfalso; revert Hin; mem.
  - intros _. destruct m as [m0|]; [case_decide|]; by eexists.
Qed.

(** ** The connection life cycle *)

Section LifecycleProperties.

Context {U : Type}.
Variable call : Callback -> json -> Store U -> Store U * completion.
Variable JSON_parse : string -> option json.

Local Notation "w ▷ inputs" := (run call JSON_parse w inputs)
  (at level 50, left associativity).

Lemma run_cons (w : World U) (i : Input) (inputs : list Input) :
  w ▷ (i :: inputs) = step call JSON_parse w i ▷ inputs.
Proof. done. Qed.

Lemma run_app (w : World U) (inputs1 inputs2 : list Input) :
  w ▷ (inputs1 ++ inputs2) = w ▷ inputs1 ▷ inputs2.
Proof. apply foldl_app. Qed.

(** The environment settles what was just suspended: the code after the
    [await] runs, and nothing else is pending that was not before. *)
Lemma settle_suspended (p : Pending) (r : completion) (w : World U) (t : nat) :
  t = fresh (dom (tasks w)) →
  step call JSON_parse (suspend p w) (Settle t r) = resume p r w.
Proof.
  intros ->. unfold suspend. simpl.
  rewrite lookup_insert_eq, delete_insert_eq, delete_id.
  - by destruct w.
  - apply not_elem_of_dom, is_fresh.
Qed.

Lemma step_invoke (w : World U) (f : Api) :
  step call JSON_parse w (Invoke f) =
  match f with
  | ApiConnect => connect FromApp w
  | ApiDisconnect => disconnect w
  | ApiTestNotification => testNotification w
  end.
Proof. by destruct f. Qed.

(** An event of a client with one set of handlers runs the handler once. *)
Lemma step_emits_once (w : World U) (c : ClientId) (ev : ClientEvent) :
  filter (λ c', c' = c) (wired w) = [c] →
  step call JSON_parse w (Emits c ev) = client_handler call JSON_parse ev w.
Proof. intros Hw. simpl. by rewrite Hw. Qed.

(** Symbolic execution of a script: one input at a time, the code between
    two awaits unfolded, what is suspended left folded. *)
Ltac unfold_methods :=
  cbv beta iota zeta delta
      [resume connect setupTriggers startListening startListening_resume
       client_query connect_catch connect_resolve setupTriggers_catch
       startListening_catch reconnect reconnect_catch disconnect
       disconnect_catch testNotification testNotification_catch
       client_handler say update set_client set_isListening];
  cbn [store this client isListening listeners wired tasks next_client trace
       arrays user].

Ltac settle :=
  rewrite run_cons;
  first [ rewrite settle_suspended by reflexivity
        | rewrite step_invoke
        | rewrite step_emits_once by (unfold_methods; assumption) ];
  unfold_methods.

(** *** A first connection that fails *)

(** C9.  A first [connect()] that fails, at whichever of its four awaits
    ([client.connect()], the two queries of [setupTriggers], [LISTEN]),
    rejects the promise of the caller with the error; afterwards nothing is
    pending (no timer was armed, no retry scheduled), no handler has been
    registered on the client, and [isListening] is still false. *)
Theorem first_connect_failure (w : World U) (n : nat) (e : Err) :
  (n ≤ 3)%nat →
  isListening (this (store w)) = false →
  let t := fresh (dom (tasks w)) in
  let w' := w ▷ (Invoke ApiConnect :: replicate n (Settle t Returned)
                   ++ [Settle t (Threw e)]) in
  (∃ out, trace w' = trace w ++ out ++ [Settled ApiConnect (Threw e)] ∧
          ∀ ms, SetTimeout ms ∉ out) ∧
  tasks w' = tasks w ∧
  wired w' = wired w ∧
  isListening (this (store w')) = false.
Proof.
  intros Hn Hoff t w'. subst w' t.
  destruct n as [|[|[|[|n]]]]; [| | | | lia]; cbn [replicate app].
  all: repeat settle.
  all: cbn [run foldl trace tasks wired store this isListening].
  all: rewrite <- !app_assoc; cbn [app].
  all: split_and!; [| reflexivity | reflexivity | assumption].
  all: lazymatch goal with
       | |- ∃ out, _ ++ ?done = _ ∧ _ => exists (removelast done)
       end.
  all: split; [reflexivity|].
  all: cbn [removelast]; intros ms Hin.
  all: repeat (apply elem_of_cons in Hin as [Hin|Hin]; [discriminate Hin|]).
  all: by apply elem_of_nil in Hin.
Qed.

(** *** Connection failures are not seen by subscribers *)

Lemma unnoticed_refl (w : World U) : unnoticed w w.
Proof. exists []. by rewrite app_nil_r. Qed.

Lemma unnoticed_trans (w1 w2 w3 : World U) :
  unnoticed w1 w2 → unnoticed w2 w3 → unnoticed w1 w3.
Proof.
  intros (out1 & Ht1 & Hc1 & Hu1 & Hl1 & Ha1) (out2 & Ht2 & Hc2 & Hu2 & Hl2 & Ha2).
  exists (out1 ++ out2). split_and!; [| | congruence | congruence | congruence].
  - by rewrite Ht2, Ht1, app_assoc.
  - unfold calls in *. by rewrite omap_app, Hc1, Hc2.
Qed.

Lemma unnoticed_say (out : list Output) (w : World U) :
  calls out = [] → unnoticed w (say out w).
Proof. intros Hc. by exists out. Qed.

Lemma unnoticed_suspend (p : Pending) (w : World U) : unnoticed w (suspend p w).
Proof. exists []. by rewrite app_nil_r. Qed.

Lemma unnoticed_flag (b : bool) (w : World U) :
  unnoticed w (update (set_isListening b) w).
Proof. exists []. by rewrite app_nil_r. Qed.

Ltac unnoticed_chain :=
  repeat first
    [ apply unnoticed_refl
    | eapply unnoticed_trans; [| apply unnoticed_suspend ]
    | eapply unnoticed_trans; [| by apply unnoticed_say ]
    | eapply unnoticed_trans; [| apply unnoticed_flag ] ].

Ltac unnoticed_direct :=
  eexists;
  cbv beta iota zeta delta [say update set_isListening set_client connect_resolve];
  cbn [trace store this user listeners arrays];
  split_and!; [rewrite <- ?app_assoc; reflexivity | reflexivity ..].

Lemma unnoticed_reconnect_catch (e : Err) (w : World U) :
  unnoticed w (reconnect_catch e w).
Proof. unfold reconnect_catch. unnoticed_chain. Qed.

Lemma unnoticed_connect_catch (k : Caller) (e : Err) (w : World U) :
  unnoticed w (connect_catch k e w).
Proof.
  unfold connect_catch. destruct k.
  - unnoticed_chain.
  - eapply unnoticed_trans; [| apply unnoticed_reconnect_catch]. unnoticed_chain.
Qed.

Lemma unnoticed_client_query (q : Sql) (p : Pending)
    (catch : Err → World U → World U) (w : World U) :
  (∀ e w', unnoticed w' (catch e w')) →
  unnoticed w (client_query q p catch w).
Proof.
  intros Hcatch. unfold client_query.
  destruct (client (this (store w))); [unnoticed_chain | apply Hcatch].
Qed.

Lemma unnoticed_setupTriggers_catch (k : Caller) (e : Err) (w : World U) :
  unnoticed w (setupTriggers_catch k e w).
Proof.
  unfold setupTriggers_catch.
  eapply unnoticed_trans; [| apply unnoticed_connect_catch]. unnoticed_chain.
Qed.

Lemma unnoticed_startListening_catch (k : Caller) (e : Err) (w : World U) :
  unnoticed w (startListening_catch k e w).
Proof.
  unfold startListening_catch.
  eapply unnoticed_trans; [| apply unnoticed_connect_catch]. unnoticed_chain.
Qed.

Lemma unnoticed_connect (k : Caller) (w : World U) : unnoticed w (connect k w).
Proof.
  unfold connect. eapply unnoticed_trans; [| apply unnoticed_suspend].
  unnoticed_direct.
Qed.

Lemma unnoticed_reconnect (w : World U) : unnoticed w (reconnect w).
Proof.
  unfold reconnect. destruct (isListening (this (store w))); [apply unnoticed_refl|].
  cbn [say store this client]. destruct (client (this (store w))); unnoticed_chain.
Qed.

Lemma unnoticed_resume (p : Pending) (r : completion) (w : World U) :
  unnoticed w (resume p r w).
Proof.
  destruct p as [k|k|k|k| | | | | |], r as [|e]; cbn [resume];
    try apply unnoticed_connect_catch;
    try apply unnoticed_setupTriggers_catch;
    try apply unnoticed_startListening_catch;
    try apply unnoticed_reconnect_catch;
    try apply unnoticed_connect;
    try apply unnoticed_reconnect;
    try (unfold disconnect_catch, testNotification_catch; by unnoticed_chain).
  - unfold setupTriggers.
    eapply unnoticed_trans; [| apply unnoticed_client_query, unnoticed_setupTriggers_catch].
    unnoticed_chain.
  - apply unnoticed_client_query, unnoticed_setupTriggers_catch.
  - unfold startListening.
    eapply unnoticed_trans; [| apply unnoticed_client_query, unnoticed_startListening_catch].
    unnoticed_chain.
  - unfold startListening_resume. cbn [say update store this client set_isListening].
    destruct (client (this (store w))).
    + destruct k; unnoticed_direct.
    + eapply unnoticed_trans; [| apply unnoticed_startListening_catch].
      unnoticed_direct.
  - destruct (client (this (store w))); [| unfold disconnect_catch]; unnoticed_chain.
Qed.

(** Whatever happens to the process, subscribers are called only for a
    notification: no other input calls a callback or touches the
    subscribers' state or the registry. *)
Lemma only_notifications_reach_subscribers (w : World U) (i : Input) :
  match i with
  | Emits _ (notification _) | Subscribe _ _ | Unsubscribe _ _
  | UnsubscribeAll _ => True
  | _ => unnoticed w (step call JSON_parse w i)
  end.
Proof.
  destruct i as [f|event cb|event cb|event|t r|c ev]; try done.
  - destruct f; cbn [step].
    + apply unnoticed_connect.
    + unfold disconnect. destruct (client (this (store w))); unnoticed_chain.
    + apply unnoticed_client_query. intros e w'.
      unfold testNotification_catch. unnoticed_chain.
  - cbn [step]. destruct (tasks w !! t) as [p|]; [| apply unnoticed_refl].
    eapply unnoticed_trans; [| apply unnoticed_resume].
    exists []. by rewrite app_nil_r.
  - destruct ev as [payload|err|]; [done| |]; cbn [step].
    + generalize (filter (λ c', c' = c) (wired w)). intros cs. revert w.
      induction cs as [|c0 cs IH]; intros w; [apply unnoticed_refl|].
      cbn [foldl]. eapply unnoticed_trans; [| apply IH].
      cbn [client_handler].
      eapply unnoticed_trans; [| apply unnoticed_reconnect]. unnoticed_chain.
    + generalize (filter (λ c', c' = c) (wired w)). intros cs. revert w.
      induction cs as [|c0 cs IH]; intros w; [apply unnoticed_refl|].
      cbn [foldl]. eapply unnoticed_trans; [| apply IH].
      cbn [client_handler].
      eapply unnoticed_trans; [| apply unnoticed_reconnect]. unnoticed_chain.
Qed.

(** *** Connecting *)

(** [connect()] whose four awaits all resolve: the listener listens on the
    new client, on which the three handlers are registered. *)
Lemma connect_succeeds (k : Caller) (w : World U) :
  connect k w ▷ replicate 4 (Settle (fresh (dom (tasks w))) Returned) =
  connect_resolve k
    (mkWorld (set_isListening true (set_client (Some (next_client w)) (store w)))
             (wired w ++ [next_client w]) (tasks w) (S (next_client w))
             (trace w ++
              [NewClient (next_client w); ClientConnect (next_client w);
               Log "PostgreSQL listener connected successfully";
               ClientQuery (next_client w) createFunctionQuery;
               ClientQuery (next_client w) createTriggerQuery;
               Log "PostgreSQL triggers set up successfully";
               ClientQuery (next_client w) ListenQuery;
               Log "Started listening to message_changes channel"])).
Proof.
  cbn [replicate]. unfold connect at 1. repeat settle.
  cbn [run foldl]. by rewrite <- !app_assoc.
Qed.

(** *** Losing the connection *)

(** [reconnect()] while [isListening] is true returns at once. *)
Lemma reconnect_guard (w : World U) :
  isListening (this (store w)) = true → reconnect w = w.
Proof. intros Hon. unfold reconnect. by rewrite Hon. Qed.

(** X20.  An ['error'] event while [isListening] is true is logged and
    nothing more: every handler's call of [reconnect] returns at once, so no
    client is ended, nothing is pending afterwards and the flag stays
    true. *)
Lemma error_while_listening_only_logs (w : World U) (c : ClientId) (err : Err) :
  isListening (this (store w)) = true →
  w ▷ [Emits c (error err)] =
  say (replicate (length (filter (λ c', c' = c) (wired w)))
         (LogError "PostgreSQL listener error:" err)) w.
Proof.
  intros Hon. rewrite run_cons. cbn [run foldl step].
  generalize (filter (λ c', c' = c) (wired w)). intros cs.
  revert w Hon. induction cs as [|c0 cs IH]; intros w Hon.
  - unfold say. cbn. rewrite app_nil_r. by destruct w.
  - cbn [foldl client_handler]. rewrite reconnect_guard by done.
    rewrite IH by done. unfold say. cbn. by rewrite <- app_assoc.
Qed.

(** A reconnect attempt that fails at one of the awaits of [connect] leaves
    the retry timer armed and nothing else. *)
Lemma failed_attempt_retries (w : World U) (c : ClientId) (n : nat) (e : Err) :
  client (this (store w)) = Some c →
  filter (λ c', c' = c) (wired w) = [c] →
  (n ≤ 3)%nat →
  ∃ W : World U,
    w ▷ (Emits c end_ :: replicate (2 + n) (Settle (fresh (dom (tasks w))) Returned)
           ++ [Settle (fresh (dom (tasks w))) (Threw e)])
    = suspend RetryTimer W ∧
    tasks W = tasks w ∧
    isListening (this (store W)) = false ∧
    client (this (store W)) = Some (next_client w) ∧
    ∃ out, trace W = trace w ++ out ++
             [LogError "Reconnection failed:" e; SetTimeout 10000%Z].
Proof.
  intros Hc Hw Hn.
  destruct n as [|[|[|[|n]]]]; [| | | | lia]; cbn [replicate app Nat.add].
  all: settle; rewrite Hc; repeat settle.
  all: cbn [run foldl]; eexists; split; [reflexivity|].
  all: cbn [store this isListening client wired tasks trace].
  all: rewrite <- !app_assoc; cbn [app].
  all: split_and!; [reflexivity | reflexivity | reflexivity |].
  all: lazymatch goal with
       | |- ∃ out, _ ++ ?done = _ => exists (removelast (removelast done))
       end; reflexivity.
Qed.

(** C2 (as amended).  When the dedicated connection ends (the ['end'] event
    of the client) the listener clears [isListening] and starts a reconnect:
    it ends the client, waits 5 s and runs the whole [connect] sequence
    again on a new client ([client.connect()], the two queries of
    [setupTriggers], [LISTEN]), after which it listens again; an attempt
    that fails at any of its awaits is logged and followed, 10 s later, by a
    new call of [reconnect].  The only guard of [reconnect] is that it
    returns at once while [isListening] is true.  None of this calls a
    subscriber: apart from registrations, only a notification does. *)
Theorem connection_end_reconnects (w : World U) (c : ClientId) :
  client (this (store w)) = Some c →
  filter (λ c', c' = c) (wired w) = [c] →
  let t := fresh (dom (tasks w)) in
  let c' := next_client w in
  (let w1 := w ▷ [Emits c end_] in
   isListening (this (store w1)) = false ∧
   tasks w1 = <[t := AwaitReconnectEnd]> (tasks w) ∧
   trace w1 = trace w ++
     [Log "PostgreSQL listener connection ended";
      Log "Attempting to reconnect PostgreSQL listener...";
      ClientEnd c]) ∧
  (let w2 := w ▷ (Emits c end_ :: replicate 6 (Settle t Returned)) in
   isListening (this (store w2)) = true ∧
   client (this (store w2)) = Some c' ∧
   wired w2 = wired w ++ [c'] ∧
   tasks w2 = tasks w ∧
   trace w2 = trace w ++
     [Log "PostgreSQL listener connection ended";
      Log "Attempting to reconnect PostgreSQL listener...";
      ClientEnd c;
      SetTimeout 5000%Z;
      NewClient c'; ClientConnect c';
      Log "PostgreSQL listener connected successfully";
      ClientQuery c' createFunctionQuery;
      ClientQuery c' createTriggerQuery;
      Log "PostgreSQL triggers set up successfully";
      ClientQuery c' ListenQuery;
      Log "Started listening to message_changes channel"]) ∧
  (∀ (n : nat) (e : Err), (n ≤ 3)%nat →
   let w3 := w ▷ (Emits c end_ :: replicate (2 + n) (Settle t Returned)
                    ++ [Settle t (Threw e)]) in
   isListening (this (store w3)) = false ∧
   tasks w3 = <[t := RetryTimer]> (tasks w) ∧
   (∃ out, trace w3 = trace w ++ out ++
             [LogError "Reconnection failed:" e; SetTimeout 10000%Z]) ∧
   let w4 := w3 ▷ [Settle t Returned] in
   tasks w4 = <[t := AwaitReconnectEnd]> (tasks w) ∧
   trace w4 = trace w3 ++
     [Log "Attempting to reconnect PostgreSQL listener..."; ClientEnd c']) ∧
  (∀ w0 : World U, isListening (this (store w0)) = true → reconnect w0 = w0) ∧
  (∀ (w0 : World U) (c0 : ClientId) (err : Err),
     unnoticed w0 (w0 ▷ [Emits c0 end_]) ∧
     unnoticed w0 (w0 ▷ [Emits c0 (error err)]) ∧
     ∀ t0 r, unnoticed w0 (w0 ▷ [Settle t0 r])).
Proof.
  intros Hc Hw t c'. subst t c'. split_and!.
  - settle. rewrite Hc. by rewrite <- !app_assoc.
  - change (replicate 6 ?x) with ([x; x] ++ replicate 4 x).
    rewrite app_comm_cons, run_app.
    settle. rewrite Hc. settle.
    rewrite run_cons, settle_suspended by reflexivity. cbn [run foldl resume].
    lazymatch goal with
    | |- context [connect ?k ?W ▷ _] =>
        pose proof (connect_succeeds k W) as Hs; cbn [tasks] in Hs; rewrite Hs
    end.
    cbn [connect_resolve store this isListening
      set_isListening set_client client wired tasks next_client trace].
    by rewrite <- !app_assoc.
  - intros n e Hn.
    destruct (failed_attempt_retries w c n e Hc Hw Hn)
      as (W & -> & Htasks & Hoff & Hclient & out & Htrace).
    split_and!.
    + done.
    + unfold suspend. cbn [tasks]. by rewrite Htasks.
    + exists out. done.
    + rewrite run_cons, settle_suspended by (by rewrite Htasks).
      cbn [run foldl resume]. unfold reconnect. rewrite Hoff.
      cbn [say store this client]. rewrite Hclient.
      unfold suspend, say. cbn [tasks trace]. by rewrite Htasks, <- !app_assoc.
  - apply reconnect_guard.
  - intros w0 c0 err. split_and!.
    + apply (only_notifications_reach_subscribers w0 (Emits c0 end_)).
    + apply (only_notifications_reach_subscribers w0 (Emits c0 (error err))).
    + intros t0 r. apply (only_notifications_reach_subscribers w0 (Settle t0 r)).
Qed.

(** *** Disconnecting *)

(** C3 (as amended).  [disconnect()] on a listener that has a client sends
    [UNLISTEN] on it, then ends it, then clears [isListening], and resolves.
    It creates no client and arms no timer; it also cancels nothing and
    takes no handler off the client: what was pending before is still
    pending, the handlers registered by [startListening] stay registered,
    and the [client] field keeps the ended client. *)
Theorem disconnect_unlistens_and_ends (w : World U) (c : ClientId) :
  client (this (store w)) = Some c →
  let t := fresh (dom (tasks w)) in
  let w' := w ▷ [Invoke ApiDisconnect; Settle t Returned; Settle t Returned] in
  trace w' = trace w ++
    [ClientQuery c UnlistenQuery; ClientEnd c;
     Log "PostgreSQL listener disconnected"; Settled ApiDisconnect Returned] ∧
  isListening (this (store w')) = false ∧
  client (this (store w')) = Some c ∧
  next_client w' = next_client w ∧
  tasks w' = tasks w ∧
  wired w' = wired w.
Proof.
  intros Hc t w'. subst t w'.
  settle. rewrite Hc. settle. rewrite Hc. settle.
  cbn [run foldl store this isListening client wired tasks next_client trace].
  by rewrite <- !app_assoc.
Qed.

(** *** The diagnostic probe *)

(** C4 (as amended).  [testNotification()] does not look at
    [isListening]: whenever the listener has a client it sends the test
    [pg_notify] on it, and logs the outcome when the query settles; with no
    client it sends nothing and logs the error.  In every case the promise
    it returns resolves: no error reaches the caller. *)
Theorem testNotification_only_needs_a_client (w : World U) :
  let t := fresh (dom (tasks w)) in
  match client (this (store w)) with
  | Some c =>
      w ▷ [Invoke ApiTestNotification] =
        suspend AwaitTestNotify (say [ClientQuery c TestNotifyQuery] w) ∧
      w ▷ [Invoke ApiTestNotification; Settle t Returned] =
        say [ClientQuery c TestNotifyQuery; Log "Test notification sent";
             Settled ApiTestNotification Returned] w ∧
      ∀ e, w ▷ [Invoke ApiTestNotification; Settle t (Threw e)] =
        say [ClientQuery c TestNotifyQuery;
             LogError "Failed to send test notification:" e;
             Settled ApiTestNotification Returned] w
  | None =>
      w ▷ [Invoke ApiTestNotification] =
        say [LogError "Failed to send test notification:" TypeError_null;
             Settled ApiTestNotification Returned] w
  end.
Proof.
  intros t. subst t. destruct (client (this (store w))) as [c|] eqn:Hc.
  - split_and!; [| | intros e].
    + settle. by rewrite Hc.
    + settle. rewrite Hc. settle. cbn [run foldl]. by rewrite <- !app_assoc.
    + settle. rewrite Hc. settle. cbn [run foldl]. by rewrite <- !app_assoc.
  - settle. by rewrite Hc.
Qed.

(** *** Notifications *)

Lemma history_say (before out : list Output) (w : World U) :
  say out (with_history before w) = with_history before (say out w).
Proof. unfold say, with_history. cbn. by rewrite app_assoc. Qed.

Lemma history_suspend (before : list Output) (p : Pending) (w : World U) :
  suspend p (with_history before w) = with_history before (suspend p w).
Proof. done. Qed.

Lemma history_update (before : list Output) (f : Store U → Store U) (w : World U) :
  update f (with_history before w) = with_history before (update f w).
Proof. done. Qed.

Ltac history :=
  cbn [with_history store this client isListening wired tasks next_client];
  repeat first
    [ progress rewrite ?history_say, ?history_suspend, ?history_update
    | reflexivity ].

Lemma history_reconnect_catch before e (w : World U) :
  reconnect_catch e (with_history before w) = with_history before (reconnect_catch e w).
Proof. unfold reconnect_catch. history. Qed.

Lemma history_connect_catch before k e (w : World U) :
  connect_catch k e (with_history before w) = with_history before (connect_catch k e w).
Proof.
  unfold connect_catch. destruct k; rewrite ?history_say, ?history_reconnect_catch; done.
Qed.

Lemma history_setupTriggers_catch before k e (w : World U) :
  setupTriggers_catch k e (with_history before w)
  = with_history before (setupTriggers_catch k e w).
Proof. unfold setupTriggers_catch. by rewrite history_say, history_connect_catch. Qed.

Lemma history_startListening_catch before k e (w : World U) :
  startListening_catch k e (with_history before w)
  = with_history before (startListening_catch k e w).
Proof. unfold startListening_catch. by rewrite history_say, history_connect_catch. Qed.

Lemma history_client_query before q p (catch : Err → World U → World U) (w : World U) :
  (∀ e w', catch e (with_history before w') = with_history before (catch e w')) →
  client_query q p catch (with_history before w)
  = with_history before (client_query q p catch w).
Proof.
  intros Hcatch. unfold client_query. cbn [with_history store].
  destruct (client (this (store w))); [history | apply Hcatch].
Qed.

Lemma history_connect before k (w : World U) :
  connect k (with_history before w) = with_history before (connect k w).
Proof. unfold connect, with_history, suspend. cbn. by rewrite app_assoc. Qed.

Lemma history_reconnect before (w : World U) :
  reconnect (with_history before w) = with_history before (reconnect w).
Proof.
  unfold reconnect. cbn [with_history store say].
  destruct (isListening (this (store w))); [done|].
  destruct (client (this (store w))); fold (with_history before w); history.
Qed.

Lemma history_resume before p r (w : World U) :
  resume p r (with_history before w) = with_history before (resume p r w).
Proof.
  destruct p as [k|k|k|k| | | | | |], r as [|e]; cbn [resume];
    rewrite ?history_say;
    try apply history_connect_catch;
    try apply history_setupTriggers_catch;
    try apply history_startListening_catch;
    try apply history_reconnect_catch;
    try apply history_connect;
    try apply history_reconnect;
    try (unfold disconnect_catch, testNotification_catch; by history).
  - apply history_client_query, history_setupTriggers_catch.
  - apply history_client_query, history_setupTriggers_catch.
  - apply history_client_query, history_startListening_catch.
  - unfold startListening_resume. rewrite history_update, history_say.
    cbn [with_history store say update].
    destruct (client (this (set_isListening true (store w)))).
    + destruct k; cbn [connect_resolve]; unfold say, with_history; cbn;
        by rewrite ?app_assoc.
    + fold (say [Log "Started listening to message_changes channel"]
                (update (set_isListening true) w)).
      by rewrite <- history_startListening_catch.
  - cbn [with_history store]. destruct (client (this (store w)));
      [| unfold disconnect_catch]; history.
Qed.

Lemma history_client_handler before ev (w : World U) :
  client_handler call JSON_parse ev (with_history before w)
  = with_history before (client_handler call JSON_parse ev w).
Proof.
  destruct ev as [payload|err|]; cbn [client_handler].
  - unfold handleNotification. destruct (JSON_parse payload) as [p|]; [| history].
    rewrite history_say. cbn [with_history store say].
    destruct (emit call "message_change" p (store w)) as [s out].
    unfold say, update, with_history. cbn. by rewrite !app_assoc.
  - by rewrite history_say, history_reconnect.
  - by rewrite history_say, history_update, history_reconnect.
Qed.

(** A step does the same whatever came before in the trace. *)
Lemma history_step before (w : World U) (i : Input) :
  step call JSON_parse (with_history before w) i
  = with_history before (step call JSON_parse w i).
Proof.
  destruct i as [f|event cb|event cb|event|t r|c ev]; cbn [step]; try done.
  - destruct f.
    + apply history_connect.
    + unfold disconnect. cbn [with_history store].
      destruct (client (this (store w))); history.
    + apply history_client_query. intros e w'. unfold testNotification_catch. history.
  - cbn [with_history tasks store wired next_client trace].
    destruct (tasks w !! t) as [p|]; [|done].
    by rewrite <- history_resume.
  - cbn [with_history wired].
    generalize (filter (λ c', c' = c) (wired w)). intros cs. revert w.
    induction cs as [|c0 cs IH]; intros w; [done|].
    cbn [foldl]. by rewrite history_client_handler, IH.
Qed.

Lemma history_run before (w : World U) (inputs : list Input) :
  with_history before w ▷ inputs = with_history before (w ▷ inputs).
Proof.
  revert w. induction inputs as [|i inputs IH]; intros w; [done|].
  by rewrite !run_cons, history_step, IH.
Qed.

(** Two processes that differ only in what they have printed stay so,
    and print the same from then on. *)
Lemma run_history_irrelevant (w1 w2 : World U) (inputs : list Input) :
  store w1 = store w2 → wired w1 = wired w2 → tasks w1 = tasks w2 →
  next_client w1 = next_client w2 →
  store (w2 ▷ inputs) = store (w1 ▷ inputs) ∧
  wired (w2 ▷ inputs) = wired (w1 ▷ inputs) ∧
  tasks (w2 ▷ inputs) = tasks (w1 ▷ inputs) ∧
  ∃ out, trace (w1 ▷ inputs) = trace w1 ++ out ∧
         trace (w2 ▷ inputs) = trace w2 ++ out.
Proof.
  destruct w1 as [s wi ta nc tr1], w2 as [s2 wi2 ta2 nc2 tr2]. cbn.
  intros <- <- <- <-.
  replace (mkWorld s wi ta nc tr1)
    with (with_history tr1 (mkWorld s wi ta nc []))
    by (unfold with_history; cbn; by rewrite app_nil_r).
  replace (mkWorld s wi ta nc tr2)
    with (with_history tr2 (mkWorld s wi ta nc []))
    by (unfold with_history; cbn; by rewrite app_nil_r).
  rewrite !history_run. cbn. split_and!; [done | done | done |].
  by eexists.
Qed.

(** A frame that does not parse only leaves a line in the log, once per
    registered notification handler. *)
Lemma malformed_frames_logged (w : World U) (bad : string) (cs : list ClientId) :
  JSON_parse bad = None →
  foldl (λ w' _, client_handler call JSON_parse (notification bad) w') w cs =
  say (replicate (length cs)
         (LogError "Failed to parse notification payload:" SyntaxError)) w.
Proof.
  intros Hbad. revert w. induction cs as [|c0 cs IH]; intros w.
  - unfold say. cbn. rewrite app_nil_r. by destruct w.
  - cbn [foldl]. rewrite IH. cbn [client_handler]. unfold handleNotification.
    rewrite Hbad. unfold say. cbn. by rewrite <- app_assoc.
Qed.

(** C5.  A notification whose payload [JSON.parse] rejects is logged and
    dropped: handling it throws nothing and changes nothing but the log
    (the listener's fields, the registry, the subscribers' state, the
    registered client handlers and what is pending are as before, no
    client is ended, no callback is called); and whatever comes next,
    valid frames included, has exactly the effect and the outputs it
    would have had without the malformed frame. *)
Theorem malformed_notification_dropped (w : World U) (c : ClientId) (bad : string) :
  JSON_parse bad = None →
  let w' := w ▷ [Emits c (notification bad)] in
  handleNotification call JSON_parse bad w =
    say [LogError "Failed to parse notification payload:" SyntaxError] w ∧
  w' = say (replicate (length (filter (λ c', c' = c) (wired w)))
              (LogError "Failed to parse notification payload:" SyntaxError)) w ∧
  store w' = store w ∧
  wired w' = wired w ∧
  tasks w' = tasks w ∧
  next_client w' = next_client w ∧
  (∀ inputs : list Input,
     store (w' ▷ inputs) = store (w ▷ inputs) ∧
     wired (w' ▷ inputs) = wired (w ▷ inputs) ∧
     tasks (w' ▷ inputs) = tasks (w ▷ inputs) ∧
     ∃ out, trace (w ▷ inputs) = trace w ++ out ∧
            trace (w' ▷ inputs) = trace w' ++ out).
Proof.
  intros Hbad w'. subst w'. rewrite run_cons. cbn [run foldl step].
  rewrite (malformed_frames_logged _ _ _ Hbad).
  set (logs := replicate _ _).
  split_and!; [unfold handleNotification; by rewrite Hbad | done..|].
  intros inputs.
  destruct (run_history_irrelevant w (say logs w) inputs)
    as (Hs & Hw & Ht & out & Ho1 & Ho2); [done..|].
  split_and!; [done | done | done |]. by exists out.
Qed.

(** *** More of the life cycle *)

(** X9.  A [connect()] whose four awaits resolve opens a new client, sends
    the function definition, then the trigger definition, then [LISTEN],
    sets [isListening], registers the handlers on the new client and
    resolves for the caller.  It does so from any state: a client the
    listener already had is neither ended nor stripped of its handlers. *)
Theorem connect_listens (w : World U) :
  let t := fresh (dom (tasks w)) in
  let c := next_client w in
  let w' := w ▷ (Invoke ApiConnect :: replicate 4 (Settle t Returned)) in
  isListening (this (store w')) = true ∧
  client (this (store w')) = Some c ∧
  wired w' = wired w ++ [c] ∧
  tasks w' = tasks w ∧
  listeners (this (store w')) = listeners (this (store w)) ∧
  arrays (store w') = arrays (store w) ∧
  trace w' = trace w ++
    [NewClient c; ClientConnect c;
     Log "PostgreSQL listener connected successfully";
     ClientQuery c createFunctionQuery;
     ClientQuery c createTriggerQuery;
     Log "PostgreSQL triggers set up successfully";
     ClientQuery c ListenQuery;
     Log "Started listening to message_changes channel";
     Settled ApiConnect Returned].
Proof.
  intros t c w'. subst t c w'.
  rewrite run_cons, step_invoke, connect_succeeds.
  cbn [connect_resolve say store this isListening set_isListening set_client
       client listeners arrays wired tasks next_client trace].
  split_and!; try reflexivity. by rewrite <- !app_assoc.
Qed.

(** X10.  When [client.end()] rejects inside [reconnect], no client is
    created: the failure is logged and the 10 s retry is armed, as for a
    failure of [connect()]. *)
Theorem reconnect_survives_end_failure (w : World U) (c : ClientId) (e : Err) :
  client (this (store w)) = Some c →
  filter (λ c', c' = c) (wired w) = [c] →
  let t := fresh (dom (tasks w)) in
  let w' := w ▷ [Emits c end_; Settle t (Threw e)] in
  tasks w' = <[t := RetryTimer]> (tasks w) ∧
  next_client w' = next_client w ∧
  client (this (store w')) = Some c ∧
  isListening (this (store w')) = false ∧
  trace w' = trace w ++
    [Log "PostgreSQL listener connection ended";
     Log "Attempting to reconnect PostgreSQL listener...";
     ClientEnd c;
     LogError "Reconnection failed:" e; SetTimeout 10000%Z].
Proof.
  intros Hc Hw t w'. subst t w'.
  settle. rewrite Hc. settle. cbn [run foldl]. unfold suspend.
  cbn [store this isListening client tasks next_client trace].
  split_and!; try reflexivity; try assumption. by rewrite <- !app_assoc.
Qed.

(** X11.  [disconnect()] never rejects, and when it fails it leaves
    [isListening] as it was: if [UNLISTEN] is rejected the client is not
    ended; if [client.end()] is rejected the flag is not cleared; either
    way the error is only logged.  Without a client it resolves at once. *)
Theorem disconnect_swallows_failures (w : World U) (e : Err) :
  let t := fresh (dom (tasks w)) in
  match client (this (store w)) with
  | Some c =>
      w ▷ [Invoke ApiDisconnect; Settle t (Threw e)] =
        say [ClientQuery c UnlistenQuery;
             LogError "Error disconnecting PostgreSQL listener:" e;
             Settled ApiDisconnect Returned] w ∧
      w ▷ [Invoke ApiDisconnect; Settle t Returned; Settle t (Threw e)] =
        say [ClientQuery c UnlistenQuery; ClientEnd c;
             LogError "Error disconnecting PostgreSQL listener:" e;
             Settled ApiDisconnect Returned] w
  | None =>
      w ▷ [Invoke ApiDisconnect] = say [Settled ApiDisconnect Returned] w
  end.
Proof.
  intros t. subst t. destruct (client (this (store w))) as [c|] eqn:Hc.
  - split.
    + settle. rewrite Hc. settle. cbn [run foldl]. by rewrite <- !app_assoc.
    + settle. rewrite Hc. settle. rewrite Hc. settle. cbn [run foldl].
      by rewrite <- !app_assoc.
  - settle. by rewrite Hc.
Qed.

(** X12.  While the probe of the database succeeds, [GET /api/health]
    answers 200 with [database: 'Connected'] and follows the reconnect:
    from the ['end'] event until the new [LISTEN] has gone through, at each
    of the awaits in between, its [listener] member is Inactive, and Active
    once it has; the [listener-status] test route says the same, with
    [isListening].  When the probe fails the health route answers 500 with
    [database: 'Disconnected'] and the message of the error, and says
    nothing of the listener, whatever its state.  With no listener in the
    application context the health route says Inactive where the test
    route says Not Initialized. *)
Theorem health_follows_the_reconnect (w : World U) (c : ClientId) (now : string) :
  client (this (store w)) = Some c →
  filter (λ c', c' = c) (wired w) = [c] →
  let t := fresh (dom (tasks w)) in
  let listener (k : nat) :=
    Some (this (store (w ▷ (Emits c end_ :: replicate k (Settle t Returned))))) in
  (∀ k : nat, (k ≤ 5)%nat →
     health_route now Returned (listener k)
     = mkResponse 200
         (JObj [("status", JStr "OK"); ("database", JStr "Connected");
                ("listener", JStr "Inactive"); ("timestamp", JStr now)]) ∧
     listener_status_route now (listener k)
     = mkResponse 200
         (JObj [("status", JStr "Inactive"); ("isListening", JBool false);
                ("timestamp", JStr now)])) ∧
  health_route now Returned (listener 6%nat)
  = mkResponse 200
      (JObj [("status", JStr "OK"); ("database", JStr "Connected");
             ("listener", JStr "Active"); ("timestamp", JStr now)]) ∧
  listener_status_route now (listener 6%nat)
  = mkResponse 200
      (JObj [("status", JStr "Active"); ("isListening", JBool true);
             ("timestamp", JStr now)]) ∧
  (∀ (message : string) (l : option PostgresListener),
     health_route now (Threw message) l
     = mkResponse 500
         (JObj [("status", JStr "Error"); ("database", JStr "Disconnected");
                ("error", JStr message); ("timestamp", JStr now)])) ∧
  member "listener" (body (health_route now Returned None)) = Some (JStr "Inactive") ∧
  member "status" (body (listener_status_route now None))
  = Some (JStr "Not Initialized").
Proof.
  intros Hc Hw t listener.
  assert (∀ k : nat, (k ≤ 5)%nat →
            isListening (this (store
              (w ▷ (Emits c end_ :: replicate k (Settle t Returned))))) = false)
    as Hgap.
  { intros k Hk. subst t.
    destruct k as [|[|[|[|[|[|k]]]]]]; [| | | | | | lia]; cbn [replicate].
    all: settle; rewrite Hc; repeat settle; reflexivity. }
  assert (isListening (this (store
            (w ▷ (Emits c end_ :: replicate 6 (Settle t Returned))))) = true)
    as Hback.
  { subst t. change (replicate 6 ?x) with ([x; x] ++ replicate 4 x).
    rewrite app_comm_cons, run_app.
    settle. rewrite Hc. settle.
    rewrite run_cons, settle_suspended by reflexivity. cbn [run foldl resume].
    lazymatch goal with
    | |- context [connect ?k ?W ▷ _] =>
        pose proof (connect_succeeds k W) as Hs; cbn [tasks] in Hs; rewrite Hs
    end.
    reflexivity. }
  subst listener. cbv beta. split_and!.
  - intros k Hk. unfold health_route, listener_status_route, listenerStatus.
    by rewrite (Hgap k Hk).
  - unfold health_route, listenerStatus. by rewrite Hback.
  - unfold listener_status_route. by rewrite Hback.
  - reflexivity.
  - reflexivity.
  - reflexivity.
Qed.

(** X13.  The [POST /notification] test route answers 200 with the
    success message whatever became of the notification: whether the
    query resolved or was rejected, and also when the listener had no
    client and nothing was sent. *)
Theorem test_route_always_reports_success (w : World U) (r : completion) :
  let t := fresh (dom (tasks w)) in
  let w' := w ▷ [Invoke ApiTestNotification; Settle t r] in
  notification_route_reply
    <$> settlement ApiTestNotification (drop (length (trace w)) (trace w'))
  = Some (mkReply 200 "Test notification sent successfully").
Proof.
  intros t w'. subst t w'.
  destruct (client (this (store w))) as [c|] eqn:Hc.
  - settle. rewrite Hc. settle. cbn [run foldl trace].
    destruct r; cbn [trace]; by rewrite <- !app_assoc, drop_app_length.
  - settle. rewrite Hc. rewrite run_cons. cbn [step tasks].
    assert (tasks w !! fresh (dom (tasks w)) = None) as ->
      by apply not_elem_of_dom, is_fresh.
    cbn [run foldl trace]. by rewrite drop_app_length.
Qed.

(** *** What the life cycle leaves alone *)

(** X14.  Connecting, losing the connection, reconnecting, disconnecting
    and probing never touch the subscriptions: over any run of inputs that
    are neither registrations nor notifications the registry and the
    subscribers' state are as before and no callback is called.  A
    reconnect neither loses nor doubles a subscriber. *)
Theorem subscriptions_survive (w : World U) (inputs : list Input) :
  Forall lifecycle_input inputs → unnoticed w (w ▷ inputs).
Proof.
  intros Hin. revert w. induction Hin as [|i inputs Hi _ IH]; intros w.
  - apply unnoticed_refl.
  - rewrite run_cons. eapply unnoticed_trans; [| apply IH].
    pose proof (only_notifications_reach_subscribers w i) as Hstep.
    destruct i as [f|event cb|event cb|event|t r|c [payload|err|]]; done.
Qed.

Lemma well_formed_same_registry (s1 s2 : Store U) :
  listeners (this s2) = listeners (this s1) → arrays s2 = arrays s1 →
  well_formed s1 → well_formed s2.
Proof. unfold well_formed. by intros -> ->. Qed.

(** X15.  The registry stays well formed (no array shared by two topics,
    no dangling reference) over every run without notifications, whatever
    registrations, removals and life-cycle events it is made of. *)
Theorem registry_stays_well_formed (w : World U) (inputs : list Input) :
  well_formed (store w) →
  Forall not_a_notification inputs →
  well_formed (store (w ▷ inputs)).
Proof.
  intros Hwf Hin. revert w Hwf. induction Hin as [|i inputs Hi _ IH]; intros w Hwf.
  - done.
  - rewrite run_cons. apply IH.
    pose proof (only_notifications_reach_subscribers w i) as Hstep.
    destruct i as [f|event cb|event cb|event|t r|c [payload|err|]]; try done;
      try (destruct Hstep as (_ & _ & _ & _ & Hl & Ha);
           by eapply well_formed_same_registry).
    + by apply well_formed_on.
    + by apply well_formed_off.
    + by apply well_formed_removeAllListeners.
Qed.

(** X16.  A valid notification on the client the listener listens on is
    parsed, logged and handed once to each callback registered under
    [message_change], in registration order (the handlers leaving the
    topic's array alone); callbacks of other topics are not called, and
    nothing else about the process changes. *)
Theorem valid_notification_delivered
    (w : World U) (c : ClientId) (payload : string) (p : json)
    (handlers : list Callback) (l : loc) :
  JSON_parse payload = Some p →
  filter (λ c', c' = c) (wired w) = [c] →
  listeners (this (store w)) !! "message_change" = Some l →
  arrays (store w) !! l = Some handlers →
  leaves_array call l handlers p →
  let w' := w ▷ [Emits c (notification payload)] in
  trace w' = trace w ++ LogPayload "Received notification:" p
                     :: (deliver call handlers p (store w)).2 ∧
  calls (drop (length (trace w)) (trace w')) = (λ h, (h, p)) <$> handlers ∧
  store w' = (deliver call handlers p (store w)).1 ∧
  wired w' = wired w ∧ tasks w' = tasks w ∧ next_client w' = next_client w.
Proof.
  intros Hp Hw Hl Ha Hquiet w'. subst w'.
  rewrite run_cons, step_emits_once by done. cbn [run foldl client_handler].
  unfold handleNotification. rewrite Hp. cbn [say store].
  assert (emit call "message_change" p (store w) = deliver call handlers p (store w))
    as ->.
  { unfold emit. rewrite Hl, Ha. by apply (forEach_deliver call l p handlers). }
  pose proof (calls_deliver call handlers p (store w)) as Hcalls.
  destruct (deliver call handlers p (store w)) as [s out]. cbn in *.
  rewrite <- app_assoc. split_and!; try reflexivity.
  rewrite drop_app_length. exact Hcalls.
Qed.

(** X17.  A dormant listener stays dormant as long as [connect()] is not
    called: whatever else happens, it creates no client and never sets
    [isListening].  After a first [connect()] that failed, real-time
    delivery stays off until the application connects again. *)
Theorem dormant_until_connect (w : World U) (inputs : list Input) :
  dormant w →
  Forall (λ i, i ≠ Invoke ApiConnect) inputs →
  dormant (w ▷ inputs) ∧ next_client (w ▷ inputs) = next_client w.
Proof.
  intros Hd Hin. revert w Hd. induction Hin as [|i inputs Hi _ IH]; intros w Hd.
  - done.
  - rewrite run_cons.
    assert (dormant (step call JSON_parse w i) ∧
            next_client (step call JSON_parse w i) = next_client w) as [Hd' Hn].
    { destruct Hd as (Hoff & Hwired & Hidle).
      destruct i as [f|event cb|event cb|event|t r|c ev].
      - destruct f; [done| |]; cbn [step].
        + unfold disconnect. destruct (client (this (store w))); [|done].
          split; [|done]. split_and!; [done | done |].
          apply map_Forall_insert_2; [unfold idle_pending; tauto | done].
        + unfold testNotification, client_query.
          destruct (client (this (store w))); [|done].
          split; [|done]. split_and!; [done | done |].
          apply map_Forall_insert_2; [unfold idle_pending; tauto | done].
      - split; [|done]. split_and!; [| done | done]. cbn.
        unfold on. repeat case_match; done.
      - split; [|done]. split_and!; [| done | done]. cbn.
        by rewrite (proj1 (off_this event cb (store w))).
      - split; [|done]. split_and!; [| done | done].
        destruct event as [e0|]; cbn; [case_decide|]; done.
      - cbn [step]. destruct (tasks w !! t) as [p|] eqn:Ht; [|done].
        assert (map_Forall (λ _ p, idle_pending p) (delete t (tasks w))) as Hdel
          by (by apply map_Forall_delete).
        destruct (Hidle _ _ Ht) as [->|[->| ->]], r as [|e]; cbn [resume store].
        + destruct (client (this (store w))); [|done].
          split; [|done]. split_and!; [done | done |].
          apply map_Forall_insert_2; [unfold idle_pending; tauto | done].
        + done.
        + done.
        + done.
        + done.
        + done.
      - cbn [step]. rewrite Hwired. done. }
    destruct (IH _ Hd') as [Hd'' Hn']. split; [done | congruence].
Qed.

(** *** Retrying *)

(** One failed attempt brings [reconnect] back to where it was, with one
    more client created. *)
Lemma retry_round (W : World U) (c : ClientId) (e : Err) :
  isListening (this (store W)) = false →
  client (this (store W)) = Some c →
  ∃ W' : World U,
    suspend AwaitReconnectEnd W ▷ failed_attempt (fresh (dom (tasks W))) e
      = suspend AwaitReconnectEnd W' ∧
    tasks W' = tasks W ∧ wired W' = wired W ∧
    isListening (this (store W')) = false ∧
    client (this (store W')) = Some (next_client W) ∧
    next_client W' = S (next_client W) ∧
    listeners (this (store W')) = listeners (this (store W)) ∧
    arrays (store W') = arrays (store W).
Proof.
  intros Hoff Hc. unfold failed_attempt.
  rewrite run_cons, settle_suspended by reflexivity. unfold_methods.
  rewrite run_cons, settle_suspended by reflexivity. unfold_methods.
  rewrite run_cons, settle_suspended by reflexivity. unfold_methods.
  rewrite run_cons, settle_suspended by reflexivity. unfold_methods.
  rewrite Hoff. cbn [run foldl]. eexists. split; [reflexivity|].
  cbn [store this isListening client listeners arrays wired tasks next_client].
  by split_and!.
Qed.

Lemma retry_rounds (n : nat) (e : Err) (W : World U) (c : ClientId) :
  isListening (this (store W)) = false →
  client (this (store W)) = Some c →
  ∃ (W' : World U) (c' : ClientId),
    suspend AwaitReconnectEnd W
      ▷ concat (replicate n (failed_attempt (fresh (dom (tasks W))) e))
      = suspend AwaitReconnectEnd W' ∧
    tasks W' = tasks W ∧ wired W' = wired W ∧
    isListening (this (store W')) = false ∧
    client (this (store W')) = Some c' ∧
    next_client W' = (next_client W + n)%nat ∧
    listeners (this (store W')) = listeners (this (store W)) ∧
    arrays (store W') = arrays (store W).
Proof.
  revert W c. induction n as [|n IH]; intros W c Hoff Hc.
  - exists W, c. by rewrite Nat.add_0_r.
  - cbn [replicate concat]. rewrite run_app.
    destruct (retry_round W c e Hoff Hc)
      as (W1 & -> & Ht1 & Hw1 & Hoff1 & Hc1 & Hn1 & Hl1 & Ha1).
    destruct (IH W1 _ Hoff1 Hc1)
      as (W2 & c2 & Hrun & Ht2 & Hw2 & Hoff2 & Hc2 & Hn2 & Hl2 & Ha2).
    rewrite Ht1 in Hrun. rewrite Hrun.
    exists W2, c2.
    split_and!; [done | congruence | congruence | done | done | lia
                | congruence | congruence].
Qed.

(** X19.  There is no maximum number of retries: after an ['end'] event,
    however many attempts fail in a row, the next one that goes through
    makes the listener listen again.  Every attempt, failed or not, creates
    one new client; the subscriptions are the ones from before. *)
Theorem reconnect_retries_until_success
    (w : World U) (c : ClientId) (n : nat) (e : Err) :
  client (this (store w)) = Some c →
  filter (λ c', c' = c) (wired w) = [c] →
  let t := fresh (dom (tasks w)) in
  let w' := w ▷ (Emits c end_ :: concat (replicate n (failed_attempt t e))
                   ++ replicate 6 (Settle t Returned)) in
  isListening (this (store w')) = true ∧
  client (this (store w')) = Some (next_client w + n)%nat ∧
  next_client w' = S (next_client w + n) ∧
  wired w' = wired w ++ [(next_client w + n)%nat] ∧
  tasks w' = tasks w ∧
  listeners (this (store w')) = listeners (this (store w)) ∧
  arrays (store w') = arrays (store w).
Proof.
  intros Hc Hw t w'. subst t w'.
  rewrite run_cons, step_emits_once by done. unfold_methods. rewrite Hc.
  rewrite run_app.
  lazymatch goal with
  | |- context [suspend AwaitReconnectEnd ?W ▷ _ ▷ _] =>
      destruct (retry_rounds n e W c eq_refl eq_refl)
        as (W' & c' & Hrun & Ht & Hwi & Hoff & Hc' & Hn & Hl & Ha);
      cbn [store this listeners arrays tasks wired next_client]
        in Hrun, Ht, Hwi, Hn, Hl, Ha
  end.
  rewrite Hrun. rewrite <- Ht.
  change (replicate 6 ?x) with ([x; x] ++ replicate 4 x). rewrite run_app.
  rewrite run_cons, settle_suspended by reflexivity. unfold_methods.
  rewrite run_cons, settle_suspended by reflexivity. cbn [run foldl resume].
  lazymatch goal with
  | |- context [connect ?k ?V ▷ _] =>
      pose proof (connect_succeeds k V) as Hs; cbn [tasks] in Hs; rewrite Hs
  end.
  cbn [connect_resolve store this isListening set_isListening set_client client
       listeners arrays wired tasks next_client].
  rewrite Hn, Hwi, Ht.
  split_and!; try reflexivity; assumption.
Qed.

End LifecycleProperties.

(** ** The model at work *)

Example parse_test_payload :
  JSON.parse test_payload =
  Some (JObj [("operation", JStr "TEST"); ("table", JStr "messages");
              ("message", JStr "Test notification")]).
Proof. vm_compute. reflexivity. Qed.

Example parse_garbage : JSON.parse "not json" = None.
Proof. vm_compute. reflexivity. Qed.

Example listening_world_listens :
  isListening (this (store listening_world)) = true ∧
  client (this (store listening_world)) = Some 0 ∧
  wired listening_world = [0] ∧
  tasks listening_world = ∅.
Proof. vm_compute. repeat split. Qed.

Example busy_store_registered :
  registered busy_store "message_change"
  = Some [quiet_handler; throwing_handler; quiet_handler].
Proof. vm_compute. reflexivity. Qed.

(** A valid frame that follows a malformed one is delivered to every
    subscriber, in order, the throwing one included. *)
Example valid_frame_after_malformed :
  drop (length (trace busy_world))
       (trace (demo_run busy_world
                 [Emits 0 (notification "not json");
                  Emits 0 (notification test_payload)])) =
  let p := JObj [("operation", JStr "TEST"); ("table", JStr "messages");
                 ("message", JStr "Test notification")] in
  [LogError "Failed to parse notification payload:" SyntaxError;
   LogPayload "Received notification:" p;
   Called quiet_handler p;
   Called throwing_handler p;
   LogError "Error in event callback:" "Error: handler failed";
   Called quiet_handler p].
Proof. vm_compute. reflexivity. Qed.

(** Three installations in a row on a new database: one notification per
    statement. *)
Example three_installs_one_notification :
  (λ db, notifications db "messages" (Inserted a_row))
    <$> install_times 3 new_database
  = Some [mkNotification "message_changes" (payload "messages" (Inserted a_row))].
Proof. vm_compute. reflexivity. Qed.

(** ** The properties on concrete inputs *)


Lemma off_removes_first_only_witness :
  well_formed busy_store ∧
  registered (off "message_change" quiet_handler busy_store) "message_change"
    = Some [throwing_handler; quiet_handler].
Proof.
  assert (well_formed busy_store) as Hwf.
  { repeat apply well_formed_on. apply (well_formed_constructor tt None false). }
  split; [exact Hwf|].
  destruct (off_removes_first_only busy_store "message_change" quiet_handler Hwf)
    as (_ & Hfirst & _).
  destruct (Hfirst [quiet_handler; throwing_handler; quiet_handler])
    as (before & after & Heq & Hnot & Hreg).
  - vm_compute. reflexivity.
  - left.
  - destruct before as [|b before].
    + injection Heq as <-. exact Hreg.
    + injection Heq as <- _. exfalso. apply Hnot. left.
Defined.

Lemma first_connect_failure_witness :
  let w' := demo_run (constructor tt)
              [Invoke ApiConnect; Settle 0 Returned; Settle 0 Returned;
               Settle 0 Returned; Settle 0 (Threw "LISTEN failed")] in
  isListening (this (store (constructor tt))) = false ∧
  tasks w' = ∅ ∧ wired w' = [] ∧ isListening (this (store w')) = false.
Proof.
  destruct (first_connect_failure demo_call JSON.parse (constructor tt) 3
              "LISTEN failed") as (_ & Ht & Hw & Hl).
  - lia.
  - reflexivity.
  - split; [reflexivity|]. split_and!; [exact Ht | exact Hw | exact Hl].
Defined.

Lemma connection_end_reconnects_witness :
  let w2 := demo_run listening_world
              (Emits 0 end_ :: replicate 6 (Settle 0 Returned)) in
  client (this (store listening_world)) = Some 0 ∧
  isListening (this (store w2)) = true ∧
  client (this (store w2)) = Some 1 ∧
  wired w2 = [0; 1].
Proof.
  destruct (connection_end_reconnects demo_call JSON.parse listening_world 0)
    as (_ & (Hon & Hc & Hw & _) & _).
  - vm_compute. reflexivity.
  - vm_compute. reflexivity.
  - split; [vm_compute; reflexivity|].
    split_and!; [exact Hon | exact Hc | exact Hw].
Defined.

Lemma disconnect_unlistens_and_ends_witness :
  let w' := demo_run listening_world
              [Invoke ApiDisconnect; Settle 0 Returned; Settle 0 Returned] in
  client (this (store listening_world)) = Some 0 ∧
  trace w' = trace listening_world ++
    [ClientQuery 0 UnlistenQuery; ClientEnd 0;
     Log "PostgreSQL listener disconnected"; Settled ApiDisconnect Returned] ∧
  isListening (this (store w')) = false.
Proof.
  destruct (disconnect_unlistens_and_ends demo_call JSON.parse listening_world 0)
    as (Ht & Hoff & _).
  - vm_compute. reflexivity.
  - split; [vm_compute; reflexivity|]. split; [exact Ht | exact Hoff].
Defined.

Lemma malformed_notification_dropped_witness :
  JSON.parse "not json" = None ∧
  store (demo_run busy_world [Emits 0 (notification "not json")])
    = store busy_world ∧
  wired (demo_run busy_world [Emits 0 (notification "not json")])
    = wired busy_world.
Proof.
  destruct (malformed_notification_dropped demo_call JSON.parse busy_world 0
              "not json") as (_ & _ & Hs & Hw & _).
  - vm_compute. reflexivity.
  - split; [vm_compute; reflexivity|]. split; [exact Hs | exact Hw].
Defined.

Lemma setupTriggers_idempotent_witness :
  install new_database = Some (installed new_database) ∧
  install_times 3 new_database = Some (installed new_database) ∧
  install (installed new_database) = Some (installed new_database) ∧
  notifications (installed new_database) "messages" (Deleted a_row)
    = [mkNotification "message_changes" (payload "messages" (Deleted a_row))].
Proof.
  assert (install new_database = Some (installed new_database)) as Hi
    by (vm_compute; reflexivity).
  destruct (setupTriggers_idempotent new_database (installed new_database) 2 Hi)
    as (Hn & H1 & _ & _ & _ & _ & _ & _ & Hone).
  split; [exact Hi|]. split; [exact Hn|]. split; [exact H1|].
  refine (proj1 (proj2 (Hone _)) _). intros name tg Hl.
  change (triggers new_database) with (∅ : gmap (string * string) Trigger) in Hl.
  by rewrite lookup_empty in Hl.
Defined.

(** ** Further properties on concrete inputs *)

Lemma on_appends_witness :
  well_formed busy_store ∧
  registered (on "message_change" throwing_handler busy_store) "message_change"
    = Some [quiet_handler; throwing_handler; quiet_handler; throwing_handler].
Proof.
  assert (well_formed busy_store) as Hwf.
  { repeat apply well_formed_on. apply (well_formed_constructor tt None false). }
  split; [exact Hwf|].
  destruct (on_appends busy_store "message_change" throwing_handler Hwf)
    as (Hreg & _).
  rewrite Hreg. vm_compute. reflexivity.
Defined.

Lemma emit_calls_bounded_witness :
  registered once_store "message_change" = Some [once_handler; quiet_handler] ∧
  (length (calls (emit demo_call "message_change" JNull once_store).2) ≤ 2)%nat.
Proof.
  assert (registered once_store "message_change" = Some [once_handler; quiet_handler])
    as Hreg by (vm_compute; reflexivity).
  split; [exact Hreg|].
  exact (proj1 (emit_calls_bounded demo_call once_store "message_change" JNull
                  [once_handler; quiet_handler] Hreg)).
Defined.

Lemma install_needs_the_table_witness :
  functions blocked_database !! "notify_message_change" = Some (ReturnsOther "void") ∧
  install blocked_database = None ∧
  ("messages" ∉ tables empty_database) ∧
  install empty_database = None.
Proof.
  assert (functions blocked_database !! "notify_message_change"
          = Some (ReturnsOther "void")) as Hf by (vm_compute; reflexivity).
  assert ("messages" ∉ tables empty_database) as Ht
    by (cbn; apply not_elem_of_empty).
  split; [exact Hf|]. split.
  - exact (proj1 (proj2 (install_needs_the_table blocked_database)) "void" Hf).
  - split; [exact Ht|].
    exact (proj1 (install_needs_the_table empty_database) Ht).
Defined.

Lemma install_overrides_witness :
  install drifted_database = Some (installed drifted_database) ∧
  install new_database = Some (installed new_database) ∧
  drifted_database ≠ new_database ∧
  installed drifted_database = installed new_database.
Proof.
  assert (install drifted_database = Some (installed drifted_database)) as H1
    by (vm_compute; reflexivity).
  assert (install new_database = Some (installed new_database)) as H2
    by (vm_compute; reflexivity).
  split; [exact H1|]. split; [exact H2|]. split.
  - intros Heq. apply (f_equal (λ db, triggers db !! ("messages", "messages_notify_trigger"))) in Heq.
    vm_compute in Heq. discriminate Heq.
  - apply (install_overrides drifted_database new_database _ _ H1 H2).
    + reflexivity.
    + intros name Hne. cbn. by rewrite lookup_singleton_ne, lookup_empty.
    + intros key Hne. cbn. by rewrite lookup_singleton_ne, lookup_empty.
Defined.

Lemma reconnect_survives_end_failure_witness :
  let w' := demo_run listening_world
              [Emits 0 end_; Settle 0 (Threw "Error: socket hang up")] in
  client (this (store listening_world)) = Some 0 ∧
  tasks w' = <[0%nat := RetryTimer]> (tasks listening_world) ∧
  next_client w' = next_client listening_world.
Proof.
  destruct (reconnect_survives_end_failure demo_call JSON.parse listening_world 0
              "Error: socket hang up") as (Ht & Hn & _).
  - vm_compute. reflexivity.
  - vm_compute. reflexivity.
  - split; [vm_compute; reflexivity|]. split; [exact Ht | exact Hn].
Defined.

Lemma health_follows_the_reconnect_witness :
  client (this (store listening_world)) = Some 0 ∧
  health_route "2024-01-01T00:00:00.000Z" Returned
    (Some (this (store (demo_run listening_world
                          (Emits 0 end_ :: replicate 3 (Settle 0 Returned))))))
  = mkResponse 200
      (JObj [("status", JStr "OK"); ("database", JStr "Connected");
             ("listener", JStr "Inactive");
             ("timestamp", JStr "2024-01-01T00:00:00.000Z")]) ∧
  health_route "2024-01-01T00:00:00.000Z" Returned
    (Some (this (store (demo_run listening_world
                          (Emits 0 end_ :: replicate 6 (Settle 0 Returned))))))
  = mkResponse 200
      (JObj [("status", JStr "OK"); ("database", JStr "Connected");
             ("listener", JStr "Active");
             ("timestamp", JStr "2024-01-01T00:00:00.000Z")]).
Proof.
  destruct (health_follows_the_reconnect demo_call JSON.parse listening_world 0
              "2024-01-01T00:00:00.000Z")
    as (Hgap & Hback & _).
  - vm_compute. reflexivity.
  - vm_compute. reflexivity.
  - split; [vm_compute; reflexivity|]. split.
    + apply (Hgap 3%nat). lia.
    + exact Hback.
Defined.

Lemma subscriptions_survive_witness :
  registered
    (store (demo_run busy_world
              ([Emits 0 end_] ++ replicate 6 (Settle 0 Returned)
               ++ [Invoke ApiDisconnect])))
    "message_change"
  = Some [quiet_handler; throwing_handler; quiet_handler].
Proof.
  destruct (subscriptions_survive demo_call JSON.parse busy_world
              ([Emits 0 end_] ++ replicate 6 (Settle 0 Returned)
               ++ [Invoke ApiDisconnect]))
    as (out & _ & _ & _ & Hl & Ha).
  - repeat constructor.
  - unfold registered, demo_run. rewrite Hl, Ha. vm_compute. reflexivity.
Defined.

Lemma registry_stays_well_formed_witness :
  well_formed (store (constructor tt)) ∧
  well_formed
    (store (demo_run (constructor tt)
              [Subscribe "message_change" quiet_handler;
               Subscribe "other" once_handler;
               Invoke ApiConnect;
               Unsubscribe "message_change" quiet_handler;
               UnsubscribeAll (Some "other");
               Subscribe "other" quiet_handler])).
Proof.
  assert (well_formed (store (constructor (U := unit) tt))) as Hwf
    by apply (well_formed_constructor tt None false).
  split; [exact Hwf|].
  apply (registry_stays_well_formed demo_call JSON.parse); [exact Hwf|].
  repeat constructor.
Defined.

Lemma valid_notification_delivered_witness :
  JSON.parse test_payload =
    Some (JObj [("operation", JStr "TEST"); ("table", JStr "messages");
                ("message", JStr "Test notification")]) ∧
  calls (drop (length (trace busy_world))
              (trace (demo_run busy_world [Emits 0 (notification test_payload)])))
  = (λ h, (h, JObj [("operation", JStr "TEST"); ("table", JStr "messages");
                    ("message", JStr "Test notification")]))
      <$> [quiet_handler; throwing_handler; quiet_handler].
Proof.
  assert (JSON.parse test_payload =
    Some (JObj [("operation", JStr "TEST"); ("table", JStr "messages");
                ("message", JStr "Test notification")])) as Hp
    by (vm_compute; reflexivity).
  split; [exact Hp|].
  destruct (valid_notification_delivered demo_call JSON.parse busy_world 0
              test_payload _ [quiet_handler; throwing_handler; quiet_handler] 0 Hp)
    as (_ & Hcalls & _).
  - vm_compute. reflexivity.
  - vm_compute. reflexivity.
  - vm_compute. reflexivity.
  - intros h s Hin.
    repeat (apply elem_of_cons in Hin as [->|Hin]; [reflexivity|]).
    by apply elem_of_nil in Hin.
  - exact Hcalls.
Defined.

Lemma dormant_until_connect_witness :
  dormant failed_world ∧
  dormant (demo_run failed_world
             [Subscribe "message_change" quiet_handler;
              Invoke ApiTestNotification; Emits 0 end_;
              Emits 0 (error "ECONNRESET"); Settle 0 Returned;
              Invoke ApiDisconnect; Settle 0 (Threw "closed")]).
Proof.
  assert (dormant failed_world) as Hd.
  { split_and!; [vm_compute; reflexivity | vm_compute; reflexivity |].
    replace (tasks failed_world) with (∅ : gmap nat Pending)
      by (vm_compute; reflexivity).
    apply map_Forall_empty. }
  split; [exact Hd|].
  apply (dormant_until_connect demo_call JSON.parse failed_world); [exact Hd|].
  repeat constructor; discriminate.
Defined.

Lemma reconnect_retries_until_success_witness :
  let w' := demo_run listening_world
              (Emits 0 end_
               :: concat (replicate 2 (failed_attempt 0 "ECONNREFUSED"))
               ++ replicate 6 (Settle 0 Returned)) in
  client (this (store listening_world)) = Some 0 ∧
  isListening (this (store w')) = true ∧
  client (this (store w')) = Some 3 ∧
  wired w' = [0; 3].
Proof.
  destruct (reconnect_retries_until_success demo_call JSON.parse listening_world
              0 2 "ECONNREFUSED") as (Hon & Hc & _ & Hw & _).
  - vm_compute. reflexivity.
  - vm_compute. reflexivity.
  - split; [vm_compute; reflexivity|].
    split_and!; [exact Hon | exact Hc | exact Hw].
Defined.

Lemma error_while_listening_only_logs_witness :
  isListening (this (store listening_world)) = true ∧
  demo_run listening_world [Emits 0 (error "ECONNRESET")] =
    say [LogError "PostgreSQL listener error:" "ECONNRESET"] listening_world.
Proof.
  split; [vm_compute; reflexivity|].
  apply (error_while_listening_only_logs demo_call JSON.parse listening_world 0
           "ECONNRESET").
  vm_compute. reflexivity.
Defined.

(** ** Where the code departs from the specification *)


(** C2, as stated, fails twice.  An ['error'] event while listening starts
    no reconnect: [isListening] is still true, so [reconnect] returns at
    once, and the listener goes on reporting that it listens.  And the
    guard does not keep attempts apart: an ['end'] event followed by an
    ['error'] event starts two attempts that run at the same time. *)
Lemma error_event_guard_counterexample :
  (let w1 := demo_run listening_world [Emits 0 (error "ECONNRESET")] in
   reconnects_in_progress w1 = 0%nat ∧
   tasks w1 = ∅ ∧
   isListening (this (store w1)) = true ∧
   trace w1 = trace listening_world
                ++ [LogError "PostgreSQL listener error:" "ECONNRESET"]) ∧
  (let w2 := demo_run listening_world
               [Emits 0 end_; Emits 0 (error "ECONNRESET")] in
   reconnects_in_progress w2 = 2%nat ∧
   map_to_list (tasks w2) = [(1%nat, AwaitReconnectEnd); (0%nat, AwaitReconnectEnd)]).
Proof. vm_compute. repeat split. Qed.

(** C3, as stated, fails: after [disconnect()] has resolved, and with no
    further call of [connect()], the ['end'] event that the ended client
    emits runs the handler registered by [startListening], which
    reconnects; and a reconnect that was already waiting when
    [disconnect()] was called goes on as well.  Both times the listener
    opens a new connection and listens again. *)
Lemma reconnects_after_disconnect :
  (let w := demo_run listening_world
              ([Invoke ApiDisconnect; Settle 0 Returned; Settle 0 Returned;
                Emits 0 end_] ++ replicate 6 (Settle 0 Returned)) in
   isListening (this (store w)) = true ∧
   client (this (store w)) = Some 1 ∧
   drop (length (trace listening_world)) (trace w) =
     [ClientQuery 0 UnlistenQuery; ClientEnd 0;
      Log "PostgreSQL listener disconnected"; Settled ApiDisconnect Returned;
      Log "PostgreSQL listener connection ended";
      Log "Attempting to reconnect PostgreSQL listener...";
      ClientEnd 0; SetTimeout 5000%Z;
      NewClient 1; ClientConnect 1;
      Log "PostgreSQL listener connected successfully";
      ClientQuery 1 createFunctionQuery; ClientQuery 1 createTriggerQuery;
      Log "PostgreSQL triggers set up successfully";
      ClientQuery 1 ListenQuery;
      Log "Started listening to message_changes channel"]) ∧
  (let w := demo_run listening_world
              ([Emits 0 end_; Invoke ApiDisconnect;
                Settle 1 (Threw "Error: Client was closed and is not queryable")]
               ++ replicate 6 (Settle 0 Returned)) in
   isListening (this (store w)) = true ∧
   client (this (store w)) = Some 1 ∧
   drop (length (trace listening_world)) (trace w) =
     [Log "PostgreSQL listener connection ended";
      Log "Attempting to reconnect PostgreSQL listener...";
      ClientEnd 0;
      ClientQuery 0 UnlistenQuery;
      LogError "Error disconnecting PostgreSQL listener:"
               "Error: Client was closed and is not queryable";
      Settled ApiDisconnect Returned;
      SetTimeout 5000%Z;
      NewClient 1; ClientConnect 1;
      Log "PostgreSQL listener connected successfully";
      ClientQuery 1 createFunctionQuery; ClientQuery 1 createTriggerQuery;
      Log "PostgreSQL triggers set up successfully";
      ClientQuery 1 ListenQuery;
      Log "Started listening to message_changes channel"]).
Proof. vm_compute. repeat split. Qed.

(** C4, as stated, fails in both directions.  While [connect()] is still
    under way the listener is not listening, yet [testNotification()] sends
    the test [pg_notify] and reports success.  And on a listener that never
    connected it sends nothing, but the caller gets no error: the failure is
    logged and the promise resolves. *)
Lemma testNotification_ignores_the_state :
  (isListening (this (store connecting_world)) = false ∧
   let w := demo_run connecting_world
              [Invoke ApiTestNotification; Settle 1 Returned] in
   isListening (this (store w)) = false ∧
   drop (length (trace connecting_world)) (trace w) =
     [ClientQuery 0 TestNotifyQuery; Log "Test notification sent";
      Settled ApiTestNotification Returned]) ∧
  trace (demo_run (constructor tt) [Invoke ApiTestNotification]) =
    [LogError "Failed to send test notification:" TypeError_null;
     Settled ApiTestNotification Returned].
Proof. vm_compute. repeat split. Qed.

(** C8, as stated, fails.  Where [messages] already has a trigger of
    another name that notifies the channel, the installer, which drops only
    the trigger of its own name, leaves it there: however often the
    installer runs, the table has two triggers afterwards, two functions
    notify, and a statement that inserts one row raises two notifications
    of different texts, which the listener receives both.  Where the name
    [notify_message_change] is held by a function of another return type,
    [CREATE OR REPLACE FUNCTION] is refused and every run fails.  And on a
    new database, after any number of runs, a statement that changes two
    rows raises two notifications, one for each row. *)
Lemma setupTriggers_keeps_other_triggers :
  (∀ n : nat, install_times (S n) legacy_database
              = Some (installed legacy_database)) ∧
  (map_to_list (filter (λ entry, entry.1.1 = "messages")
                  (triggers (installed legacy_database)))).*1
    = [("messages", "message_changes_trigger");
       ("messages", "messages_notify_trigger")] ∧
  notifications (installed legacy_database) "messages" (Inserted a_row)
    = [mkNotification "message_changes" (JObj [("id", JNum 7)]);
       mkNotification "message_changes" (payload "messages" (Inserted a_row))] ∧
  (∀ n : nat, install_times (S n) blocked_database = None) ∧
  (∀ n : nat, install_times (S n) new_database = Some (installed new_database)) ∧
  statement_notifications (installed new_database) "messages"
    [Updated a_row a_row; Updated another_row another_row]
    = [mkNotification "message_changes"
         (payload "messages" (Updated a_row a_row));
       mkNotification "message_changes"
         (payload "messages" (Updated another_row another_row))].
Proof.
  assert ("messages" ∈ ({["messages"]} : gset string)) as Ht
    by by apply elem_of_singleton_2.
  split_and!.
  - intros n. apply install_times_Some; [exact Ht|].
    intros type. vm_compute. discriminate.
  - vm_compute. reflexivity.
  - vm_compute. reflexivity.
  - intros n. change (install blocked_database ≫= install_times n = None).
    by rewrite (install_None_name blocked_database "void").
  - intros n. apply install_times_Some; [exact Ht|].
    intros type. vm_compute. discriminate.
  - vm_compute. reflexivity.
Qed.
